(** * cancan: CSV trace parser and timing-accurate CAN replay

    A shallow embedding of [main.go]: the row parser [parseCANFrame], the
    loader [parseCSV] and the scheduler [replayFrames], with the functions of
    Go's standard library they call ([strconv.ParseUint], [strings.Trim*],
    [hex.DecodeString]) written out over byte strings.

    Go values are modelled as follows: a [string] is a Rocq [string] (a
    sequence of bytes), [uint64]/[uint32]/[uint8] are [Z] with the wrap-around
    written out, a slice is a [list], an [error] is a value of an inductive
    type ([None] for [nil]) and a run-time panic is the [Panics] outcome. *)

From Stdlib Require Import ZArith List String Ascii Bool Lia Arith DecimalString.
From Stdlib Require Import Sorted.
Import ListNotations.

Local Open Scope string_scope.
Local Open Scope list_scope.
Local Open Scope Z_scope.

(** ** Machine integers *)

Definition wrap64 (z : Z) : Z := z mod 2 ^ 64.

(** Conversion of a [uint64] to the signed [int64] ([time.Duration]). *)
Definition toInt64 (z : Z) : Z := (z + 2 ^ 63) mod 2 ^ 64 - 2 ^ 63.

Definition maxUint64 : Z := 2 ^ 64 - 1.

Definition code (c : ascii) : Z := Z.of_N (N_of_ascii c).

(** ** Outcomes of a Go call: a normal return or a run-time panic *)

Inductive runtimeError : Type :=
| IndexOutOfRange (index : nat) (len : nat).

Inductive outcome (A : Type) : Type :=
| Returns (a : A)
| Panics (e : runtimeError).

Arguments Returns {A} a.
Arguments Panics {A} e.

Definition bind {A B : Type} (m : outcome A) (k : A -> outcome B) : outcome B :=
  match m with
  | Returns a => k a
  | Panics e => Panics e
  end.

Notation "x <- m ;; k" := (bind m (fun x => k))
  (at level 61, m at next level, right associativity).

(** [s[j]] on a slice: panics out of range. *)
Definition index {A : Type} (s : list A) (j : nat) : outcome A :=
  match nth_error s j with
  | Some a => Returns a
  | None => Panics (IndexOutOfRange j (List.length s))
  end.

(** [s[i] = v] for an index known to be in range. *)
Fixpoint store {A : Type} (s : list A) (i : nat) (v : A) : list A :=
  match s, i with
  | [], _ => []
  | _ :: t, O => v :: t
  | h :: t, S i' => h :: store t i' v
  end.

(** ** Go standard library: package strconv *)

Module strconv.

Inductive NumError : Type := ErrSyntax | ErrRange.

(** [lower(c)] is [c | ('x' - 'X')]. *)
Definition lower (c : Z) : Z := Z.lor c 32.

(** The digit value of a byte, before the comparison with the base. *)
Definition digit (c : Z) : option Z :=
  if (48 <=? c) && (c <=? 57) then Some (c - 48)
  else if (97 <=? lower c) && (lower c <=? 122) then Some (lower c - 97 + 10)
  else None.

(** The loop of [ParseUint] over the bytes of [s], with accumulator [n]. *)
Fixpoint digits (base maxVal cutoff : Z) (s : string) (n : Z)
  : Z * option NumError :=
  match s with
  | EmptyString => (n, None)
  | String c s' =>
      match digit (code c) with
      | None => (0, Some ErrSyntax)
      | Some d =>
          if d >=? base then (0, Some ErrSyntax)
          else if n >=? cutoff then (maxVal, Some ErrRange)
          else
            let n' := wrap64 (n * base) in
            let n1 := wrap64 (n' + d) in
            if (n1 <? n') || (n1 >? maxVal) then (maxVal, Some ErrRange)
            else digits base maxVal cutoff s' n1
      end
  end.

(** [strconv.ParseUint(s, base, bitSize)] for an explicit base
    [2 <= base <= 36] and [1 <= bitSize <= 64], which is how the program
    calls it: no sign, no prefix and no underscore is accepted. *)
Definition ParseUint (s : string) (base bitSize : Z) : Z * option NumError :=
  match s with
  | EmptyString => (0, Some ErrSyntax)
  | _ =>
      let cutoff := maxUint64 / base + 1 in
      let maxVal := 2 ^ bitSize - 1 in
      digits base maxVal cutoff s 0
  end.

End strconv.

(** ** Go standard library: package strings *)

Module strings.

Fixpoint HasPrefix (s p : string) {struct p} : bool :=
  match p, s with
  | EmptyString, _ => true
  | String _ _, EmptyString => false
  | String a p', String b s' => Ascii.eqb a b && HasPrefix s' p'
  end.

(** [s[n:]]. *)
Fixpoint drop (n : nat) (s : string) : string :=
  match n, s with
  | S n', String _ s' => drop n' s'
  | _, _ => s
  end.

Definition TrimPrefix (s p : string) : string :=
  if HasPrefix s p then drop (length p) s else s.

(** The bytes of [s] in reverse order (a helper for the functions that work
    from the end of a string). *)
Definition rev (s : string) : string :=
  string_of_list_ascii (List.rev (list_ascii_of_string s)).

Definition HasSuffix (s p : string) : bool := HasPrefix (rev s) (rev p).

Definition TrimSuffix (s p : string) : string :=
  if HasSuffix s p then substring 0 (length s - length p) s else s.

(** [strings.TrimLeft(s, cutset)] for a cutset of ASCII bytes: the leading
    bytes that occur in [cutset] are dropped. *)
Definition inCutset (cutset : string) (c : ascii) : bool :=
  existsb (Ascii.eqb c) (list_ascii_of_string cutset).

Fixpoint TrimLeft (s cutset : string) : string :=
  match s with
  | String c s' => if inCutset cutset c then TrimLeft s' cutset else s
  | EmptyString => s
  end.

(** [strings.ToLower] on ASCII letters.  Bytes of 128 and above are left
    alone here; Go lowers the runes they encode, and no such rune lowers
    to a letter of ["true"], the only text the result is compared with. *)
Definition lowerByte (c : ascii) : ascii :=
  if (65 <=? code c) && (code c <=? 90)
  then ascii_of_N (Z.to_N (code c + 32)) else c.

Fixpoint ToLower (s : string) : string :=
  match s with
  | EmptyString => EmptyString
  | String c s' => String (lowerByte c) (ToLower s')
  end.

(** ['\t', '\n', '\v', '\f', '\r', ' ']. *)
Definition asciiSpace (c : Z) : bool :=
  ((9 <=? c) && (c <=? 13)) || (c =? 32).

(** UTF-8 encodings of the remaining runes of [unicode.IsSpace]:
    U+0085, U+00A0 (two bytes) and U+1680, U+2000..U+200A, U+2028, U+2029,
    U+202F, U+205F, U+3000 (three bytes). *)
Definition space2 (a b : Z) : bool :=
  (a =? 194) && ((b =? 133) || (b =? 160)).

Definition space3 (a b c : Z) : bool :=
  ((a =? 225) && (b =? 154) && (c =? 128))
  || ((a =? 226) && (b =? 128)
      && (((128 <=? c) && (c <=? 138)) || (c =? 168) || (c =? 169) || (c =? 175)))
  || ((a =? 226) && (b =? 129) && (c =? 159))
  || ((a =? 227) && (b =? 128) && (c =? 128)).

Fixpoint trimSpaceLeft (s : string) : string :=
  match s with
  | EmptyString => s
  | String a r =>
      if asciiSpace (code a) then trimSpaceLeft r
      else
        match r with
        | EmptyString => s
        | String b r2 =>
            if space2 (code a) (code b) then trimSpaceLeft r2
            else
              match r2 with
              | EmptyString => s
              | String c r3 =>
                  if space3 (code a) (code b) (code c) then trimSpaceLeft r3
                  else s
              end
        end
  end.

(** The same from the end, on the reversed string: [a] is the last byte. *)
Fixpoint trimSpaceRev (s : string) : string :=
  match s with
  | EmptyString => s
  | String a r =>
      if asciiSpace (code a) then trimSpaceRev r
      else
        match r with
        | EmptyString => s
        | String b r2 =>
            if space2 (code b) (code a) then trimSpaceRev r2
            else
              match r2 with
              | EmptyString => s
              | String c r3 =>
                  if space3 (code c) (code b) (code a) then trimSpaceRev r3
                  else s
              end
        end
  end.

Definition TrimSpace (s : string) : string :=
  rev (trimSpaceRev (rev (trimSpaceLeft s))).

End strings.

(** ** Go standard library: package encoding/hex *)

Module hex.

Inductive Error : Type :=
| InvalidByteError (b : Z)
| ErrLength.

(** [reverseHexTable]: 255 marks a byte that is not a hex digit. *)
Definition reverseHexTable (c : Z) : Z :=
  if (48 <=? c) && (c <=? 57) then c - 48
  else if (97 <=? c) && (c <=? 102) then c - 97 + 10
  else if (65 <=? c) && (c <=? 70) then c - 65 + 10
  else 255.

(** [hex.DecodeString]: the bytes decoded before the first error, and the
    error. *)
Fixpoint DecodeString (s : string) : list Z * option Error :=
  match s with
  | EmptyString => ([], None)
  | String p EmptyString =>
      if reverseHexTable (code p) >? 15
      then ([], Some (InvalidByteError (code p)))
      else ([], Some ErrLength)
  | String p (String q rest) =>
      let a := reverseHexTable (code p) in
      let b := reverseHexTable (code q) in
      if a >? 15 then ([], Some (InvalidByteError (code p)))
      else if b >? 15 then ([], Some (InvalidByteError (code q)))
      else
        let '(bs, err) := DecodeString rest in
        (Z.lor (Z.shiftl a 4) b :: bs, err)
  end.

End hex.

(** ** The frame model and the parser ([main.go], lines 17-107) *)

Record CANFrame : Type := mkCANFrame {
  Timestamp : Z;        (* uint64 *)
  ID : Z;               (* uint32 *)
  Extended : bool;
  Data : list Z;        (* []byte *)
  Length : Z            (* uint8 *)
}.

(** The zero value [var frame CANFrame]. *)
Definition zeroFrame : CANFrame := mkCANFrame 0 0 false [] 0.

Definition setTimestamp (f : CANFrame) (v : Z) : CANFrame :=
  mkCANFrame v (ID f) (Extended f) (Data f) (Length f).
Definition setID (f : CANFrame) (v : Z) : CANFrame :=
  mkCANFrame (Timestamp f) v (Extended f) (Data f) (Length f).
Definition setExtended (f : CANFrame) (v : bool) : CANFrame :=
  mkCANFrame (Timestamp f) (ID f) v (Data f) (Length f).
Definition setData (f : CANFrame) (v : list Z) : CANFrame :=
  mkCANFrame (Timestamp f) (ID f) (Extended f) v (Length f).
Definition setLength (f : CANFrame) (v : Z) : CANFrame :=
  mkCANFrame (Timestamp f) (ID f) (Extended f) (Data f) v.

(** The errors the program builds with [fmt.Errorf], as values: the format
    arguments are kept, the wrapped cause included. *)
Inductive error : Type :=
| OpenFailed                                         (* "failed to open CSV: %w" *)
| ReadFailed                                         (* "failed to read CSV: %w" *)
| NoDataRows                     (* "CSV file is empty or has no data rows" *)
| InvalidTimestamp (cause : strconv.NumError)        (* "invalid timestamp: %w" *)
| InvalidCANID (cause : strconv.NumError)            (* "invalid CAN ID: %w" *)
| InvalidLength (cause : strconv.NumError)           (* "invalid length: %w" *)
| InvalidDataByte (d : nat) (dataStr : string)  (* "invalid data byte D%d: %s" *)
| NoFrames                                           (* "no frames to replay" *)
| SendFailed (i : nat) (id : Z) (cause : string).
                                     (* "failed to send frame %d (ID: 0x%X): %w" *)

(** Lines 72-77: the identifier column, prefix and leading zeros removed,
    read in base 16 into 32 bits. *)
Definition parseID (col : string) : Z * option strconv.NumError :=
  let idStr := strings.TrimPrefix col "0x" in
  let idStr := strings.TrimLeft idStr "0" in
  let idStr := if String.eqb idStr "" then "0" else idStr in
  strconv.ParseUint idStr 16 32.

(** Lines 95-104: the loop over the data columns, [n] iterations left,
    from index [i]; it is entered with [n = min(frame.Length, 8)], [i = 0]. *)
Fixpoint parseData (n : nat) (i : nat) (record : list string) (frame : CANFrame)
  : outcome (CANFrame * option error) :=
  match n with
  | O => Returns (frame, None)
  | S n' =>
      col <- index record (6 + i) ;;
      let dataStr := strings.TrimSpace col in
      let dataStr := strings.TrimSuffix dataStr "," in
      let '(b, err) := hex.DecodeString dataStr in
      match err, b with
      | None, [b0] =>
          parseData n' (S i) record (setData frame (store (Data frame) i b0))
      | _, _ => Returns (frame, Some (InvalidDataByte (i + 1) dataStr))
      end
  end.

Definition parseCANFrame (record : list string) : outcome (CANFrame * option error) :=
  let frame := zeroFrame in
  (* Parse timestamp *)
  col0 <- index record 0 ;;
  let '(timestamp, err) := strconv.ParseUint col0 10 64 in
  match err with
  | Some e => Returns (frame, Some (InvalidTimestamp e))
  | None =>
  let frame := setTimestamp frame timestamp in
  (* Parse CAN ID (remove leading zeros) *)
  col1 <- index record 1 ;;
  let '(id, err) := parseID col1 in
  match err with
  | Some e => Returns (frame, Some (InvalidCANID e))
  | None =>
  let frame := setID frame (id mod 2 ^ 32) in
  (* Parse extended flag *)
  col2 <- index record 2 ;;
  let frame := setExtended frame (String.eqb (strings.ToLower col2) "true") in
  (* Parse length *)
  col5 <- index record 5 ;;
  let '(length, err) := strconv.ParseUint col5 10 8 in
  match err with
  | Some e => Returns (frame, Some (InvalidLength e))
  | None =>
  let frame := setLength frame (length mod 2 ^ 8) in
  (* Parse data bytes (D1-D8) *)
  let frame := setData frame (repeat 0 (Z.to_nat (Length frame))) in
  parseData (Nat.min (Z.to_nat (Length frame)) 8) 0 record frame
  end end end.

(** What [parseCSV] writes to the log for a row it skips. *)
Inductive warning : Type :=
| InsufficientColumns (row : nat)     (* "skipping row %d - insufficient columns" *)
| RowError (row : nat) (err : error).                (* "skipping row %d - %v" *)

(** ** Go standard library: package encoding/csv *)

Module csv.

(** The check [Reader.Read] makes with the settings of [csv.NewReader]
    ([FieldsPerRecord] is 0): the number of fields of the first record is
    required of every later record. *)
Definition sameWidth (records : list (list string)) : bool :=
  match records with
  | [] => true
  | first :: rest =>
      forallb (fun record => (List.length record =? List.length first)%nat) rest
  end.

(** [Reader.ReadAll] over the records of a file: all of them, or the error
    "wrong number of fields" ([None]) at a record whose number of fields is
    not that of the first. *)
Definition ReadAll (records : list (list string)) : option (list (list string)) :=
  if sameWidth records then Some records else None.

End csv.

(** The file [parseCSV] is given: one that cannot be opened, one the reader
    cannot tokenize (a quote out of place), or one made of the given records,
    in order, each a list of fields.  The file system and the tokenizer are
    outside the program; the field count check of the reader is [csv.ReadAll]
    above. *)
Inductive csvSource : Type :=
| CannotOpen
| CannotRead
| Records (records : list (list string)).

(** Lines 44-56: the loop over [records[1:]], at index [i], with the frames
    appended so far.  The result is the log written and the final slice. *)
Fixpoint parseRows (i : nat) (rows : list (list string)) (frames : list CANFrame)
  : list warning * outcome (list CANFrame) :=
  match rows with
  | [] => ([], Returns frames)
  | record :: rest =>
      if (List.length record <? 12)%nat then
        let '(log, r) := parseRows (S i) rest frames in
        (InsufficientColumns (i + 2) :: log, r)
      else
        match parseCANFrame record with
        | Panics e => ([], Panics e)
        | Returns (frame, Some err) =>
            let '(log, r) := parseRows (S i) rest frames in
            (RowError (i + 2) err :: log, r)
        | Returns (frame, None) => parseRows (S i) rest (frames ++ [frame])
        end
  end.

Definition parseCSV (file : csvSource)
  : list warning * outcome (list CANFrame * option error) :=
  match file with
  | CannotOpen => ([], Returns ([], Some OpenFailed))
  | CannotRead => ([], Returns ([], Some ReadFailed))
  | Records records =>
      match csv.ReadAll records with
      | None => ([], Returns ([], Some ReadFailed))
      | Some records =>
          if (List.length records <? 2)%nat then ([], Returns ([], Some NoDataRows))
          else
            let '(log, r) := parseRows 0 (tl records) [] in
            (log, frames <- r ;; Returns (frames, None))
      end
  end.

(** ** The transport: package github.com/brutella/can, interface only *)

Module can.

Record Frame : Type := mkFrame {
  ID : Z;             (* uint32 *)
  Length : Z;         (* uint8 *)
  Flags : Z;          (* uint8 *)
  Data : list Z       (* [8]uint8 *)
}.

(** What the scheduler needs of the package: [bus.Publish], which may change
    the bus and returns an error or [nil], and the flag constant [can.EFF]. *)
Class Bus (B : Type) : Type := {
  Publish : B -> Frame -> B * option string;
  EFF : Z
}.

End can.

(** Go's built-in [copy(dst, src)]. *)
Definition copy (dst src : list Z) : list Z :=
  firstn (List.length dst) src ++ skipn (List.length src) dst.

(** ** The replay scheduler ([main.go], lines 109-164) *)

(** What a run does, in order: [time.Sleep] (nanoseconds), [bus.Publish] with
    its result, the progress line and the line printed between two passes. *)
Inductive event : Type :=
| Sleep (d : Z)
| Sent (f : can.Frame) (err : option string)
| Progress (n total : nat) (id : Z) (elapsed : Z)
| Looping.

(** How a run stands when the fuel is spent: returned, or still in the loop. *)
Inductive status : Type :=
| Returned (err : option error)
| Running.

Definition Microsecond : Z := 1000.

(** [time.Duration(u) * time.Microsecond] for a [uint64] [u]. *)
Definition microseconds (u : Z) : Z := toInt64 (toInt64 u * Microsecond).

(** Lines 119-125: the variable [delay] for the frame at index [i]. *)
Definition delay (frames : list CANFrame) (i : nat) (frame : CANFrame) : Z :=
  if (i =? 0)%nat then 0
  else
    let deltaUs :=
      wrap64 (Timestamp frame - Timestamp (nth (i - 1) frames zeroFrame)) in
    microseconds deltaUs.

Section Scheduler.

Context {B : Type} {T : can.Bus B}.

(** Lines 132-142: the frame handed to the transport. *)
Definition encode (frame : CANFrame) : can.Frame :=
  let canFrame := can.mkFrame (ID frame) (Length frame) 0 (repeat 0 8%nat) in
  let canFrame :=
    if Extended frame
    then can.mkFrame (can.ID canFrame) (can.Length canFrame)
           (Z.lor (can.Flags canFrame) can.EFF) (can.Data canFrame)
    else canFrame in
  can.mkFrame (can.ID canFrame) (can.Length canFrame) (can.Flags canFrame)
    (copy (can.Data canFrame) (Data frame)).

(** Lines 117-154: one pass, from index [i], over [rest = frames[i:]]. *)
Fixpoint sendFrom (frames : list CANFrame) (firstTimestamp : Z) (i : nat)
  (rest : list CANFrame) (bus : B) : list event * B * option error :=
  match rest with
  | [] => ([], bus, None)
  | frame :: rest' =>
      let d := delay frames i frame in
      let slept := if d >? 0 then [Sleep d] else [] in
      let canFrame := encode frame in
      let '(bus', err) := can.Publish bus canFrame in
      match err with
      | Some e =>
          (slept ++ [Sent canFrame (Some e)], bus',
           Some (SendFailed i (ID frame) e))
      | None =>
          let printed :=
            if (i mod 100 =? 0)%nat
            then [Progress (i + 1) (List.length frames) (ID frame)
                    (microseconds (wrap64 (Timestamp frame - firstTimestamp)))]
            else [] in
          let '(evs, bus'', r) := sendFrom frames firstTimestamp (S i) rest' bus' in
          (slept ++ Sent canFrame None :: printed ++ evs, bus'', r)
      end
  end.

(** Lines 116-161: the outer [for], at most [fuel] passes of it. *)
Fixpoint passes (fuel : nat) (frames : list CANFrame) (firstTimestamp : Z)
  (loop : bool) (bus : B) : list event * B * status :=
  match fuel with
  | O => ([], bus, Running)
  | S fuel' =>
      let '(evs, bus', r) := sendFrom frames firstTimestamp 0 frames bus in
      match r with
      | Some e => (evs, bus', Returned (Some e))
      | None =>
          if negb loop then (evs, bus', Returned None)
          else
            let '(evs', bus'', st) := passes fuel' frames firstTimestamp loop bus' in
            (evs ++ Looping :: evs', bus'', st)
      end
  end.

Definition replayFrames (fuel : nat) (bus : B) (frames : list CANFrame)
  (loop : bool) : list event * B * status :=
  if (List.length frames =? 0)%nat then ([], bus, Returned (Some NoFrames))
  else
    let firstTimestamp := Timestamp (nth 0 frames zeroFrame) in
    passes fuel frames firstTimestamp loop bus.

End Scheduler.

(** ** Observations on a run *)

(** One call of [bus.Publish]: the time slept since the call before it (in
    nanoseconds), the frame handed over and the answer. *)
Record transmission : Type := mkTransmission {
  waited : Z;
  handed : can.Frame;
  answer : option string
}.

(** The transmissions of a run, in order; [acc] is what has been slept since
    the last one. *)
Fixpoint transmissions (acc : Z) (evs : list event) : list transmission :=
  match evs with
  | [] => []
  | Sleep d :: r => transmissions (acc + d) r
  | Sent f a :: r => mkTransmission acc f a :: transmissions 0 r
  | _ :: r => transmissions acc r
  end.

(** What has been slept at the end of [evs] since its last transmission. *)
Fixpoint pending (acc : Z) (evs : list event) : Z :=
  match evs with
  | [] => acc
  | Sleep d :: r => pending (acc + d) r
  | Sent _ _ :: r => pending 0 r
  | _ :: r => pending acc r
  end.

(** The schedule: the time the scheduler sleeps before frame [i], which is
    [delay] when that is positive and nothing otherwise (lines 127-129). *)
Definition wait (frames : list CANFrame) (i : nat) (frame : CANFrame) : Z :=
  let d := delay frames i frame in if d >? 0 then d else 0.

Section Schedule.

Context {B : Type} {T : can.Bus B}.

(** The transmissions of a pass from index [i] in which every frame of
    [rest] is accepted. *)
Fixpoint planned (frames : list CANFrame) (i : nat) (rest : list CANFrame)
  : list transmission :=
  match rest with
  | [] => []
  | frame :: rest' =>
      mkTransmission (wait frames i frame) (encode frame) None
        :: planned frames (S i) rest'
  end.

(** [p] complete passes. *)
Definition cycles (frames : list CANFrame) (p : nat) : list transmission :=
  List.concat (repeat (planned frames 0 frames) p).

End Schedule.

(** A transport that accepts [n] frames and refuses the next. *)
#[local] Instance failAfter : can.Bus nat := {
  Publish := fun n f =>
    match n with
    | O => (O, Some "write: no buffer space available"%string)
    | S n' => (n', None)
    end;
  EFF := 128
}.

(** A sample frame with timestamp [t], and a sample trace. *)
Definition frameAt (t : Z) : CANFrame := mkCANFrame t 0x5F4 false [0; 9] 2.

Definition sampleTrace : list CANFrame := [frameAt 100; frameAt 150; frameAt 400].

Definition refusal : string := "write: no buffer space available".

(** ** The number a numeral denotes *)

(** [numeral base s acc]: the value of the digits [s] in [base], continuing
    from [acc], without any bound; [None] when a byte is not a digit of the
    base. *)
Fixpoint numeral (base : Z) (s : string) (acc : Z) : option Z :=
  match s with
  | EmptyString => Some acc
  | String c s' =>
      match strconv.digit (code c) with
      | Some d => if d <? base then numeral base s' (acc * base + d) else None
      | None => None
      end
  end.

(** The identifier a column of the trace denotes: the base-16 value of the
    text after an optional [0x]. *)
Definition identifierOf (col : string) : option Z :=
  numeral 16 (strings.TrimPrefix col "0x") 0.

(** What lines 96-99 make of a data column: the text handed to the decoder,
    and the byte when that text decodes to exactly one. *)
Definition trimmed (col : string) : string :=
  strings.TrimSuffix (strings.TrimSpace col) ",".

Definition oneByte (col : string) : option Z :=
  match hex.DecodeString (trimmed col) with
  | ([b], None) => Some b
  | _ => None
  end.

(** The columns [D(i+1) .. D(i+k)] are present and each is one hex byte. *)
Definition wellFormed (record : list string) (i k : nat) : Prop :=
  forall j, (j < k)%nat ->
    exists col b, nth_error record (6 + (i + j)) = Some col /\ oneByte col = Some b.

(** The first six columns of a row as the parser reads them: timestamp,
    identifier, extended flag and length, when the four columns are there and
    the three numbers parse. *)
Definition header (record : list string) : option (Z * Z * bool * Z) :=
  match nth_error record 0, nth_error record 1,
        nth_error record 2, nth_error record 5 with
  | Some c0, Some c1, Some c2, Some c5 =>
      match strconv.ParseUint c0 10 64, parseID c1, strconv.ParseUint c5 10 8 with
      | (ts, None), (id, None), (len, None) =>
          Some (ts, id, String.eqb (strings.ToLower c2) "true", len)
      | _, _, _ => None
      end
  | _, _, _, _ => None
  end.

(** The column name the format ["D%d"] prints for [d]. *)
Definition columnName (d : nat) : string :=
  ("D" ++ DecimalString.NilZero.string_of_uint (Nat.to_uint d))%string.

(** A warning that names one of the data columns [D1] .. [D8]. *)
Definition namesColumn (w : warning) : Prop :=
  exists row d dataStr,
    w = RowError row (InvalidDataByte d dataStr) /\ (1 <= d <= 8)%nat.

(** Sample rows: the row of the README, with the identifier column, the
    extended flag and the length column left open. *)
Definition sampleHeader : list string :=
  ["Time Stamp"; "ID"; "Extended"; "Dir"; "Bus"; "LEN";
   "D1"; "D2"; "D3"; "D4"; "D5"; "D6"; "D7"; "D8"].

Definition sampleRow (id ext len : string) : list string :=
  ["18970798"; id; ext; "Rx"; "0"; len;
   "00"; "09"; "1C"; "46"; "00"; "00"; "00"; "01"].

(** ** The rows of a file, one by one *)

(** The frames the rows of a file contribute, row by row: a row of at least
    12 columns that [parseCANFrame] accepts gives its frame, any other row
    gives nothing. *)
Definition acceptedFrames (rows : list (list string)) : list CANFrame :=
  flat_map
    (fun record =>
       if (List.length record <? 12)%nat then []
       else
         match parseCANFrame record with
         | Returns (frame, None) => [frame]
         | _ => []
         end)
    rows.

(** The row number a warning carries. *)
Definition rowOf (w : warning) : nat :=
  match w with
  | InsufficientColumns row => row
  | RowError row _ => row
  end.

(** ** The program ([main.go], lines 166-201) *)

(** The values of the flags [-csv], [-can] and [-loop]. *)
Record flags : Type := mkFlags {
  csvFile : string;
  canInterface : string;
  loopFlag : bool
}.

(** The values the flags have when they are not given. *)
Definition defaultFlags : flags := mkFlags "" "vcan0" false.

(** What [flag.Parse] makes of the command line.  The flag set of the
    program exits on error: for [-h] or [-help] it prints the usage and ends
    the process with status 0, for a flag it cannot parse it prints the
    problem and the usage and ends the process with status 2; otherwise the
    flags have their values. *)
Inductive commandLine : Type :=
| HelpRequested
| BadFlag
| Parsed (fl : flags).

(** The messages of [log.Fatal] and [log.Fatalf]; each one ends the process
    with status 1, and deferred calls are not run. *)
Inductive fatal : Type :=
| NoCSVFlag                  (* "Please specify a CSV file with -csv flag" *)
| ParseFailed (err : error)                     (* "Failed to parse CSV: %v" *)
| OpenInterfaceFailed (cause : string)   (* "Failed to open CAN interface: %v" *)
| ReplayFailed (err : error).                        (* "Replay failed: %v" *)

(** What the process does that can be seen from outside, in order. *)
Inductive output : Type :=
| ParsingFile (name : string)                    (* "Parsing CSV file: %s" *)
| Warned (w : warning)                           (* the log of [parseCSV] *)
| Loaded (n : nat)                               (* "Loaded %d CAN frames" *)
| TotalDuration (d : Z)                          (* "Total duration: %v" *)
| OpeningInterface (name : string)               (* "Opening CAN interface: %s" *)
| Starting                     (* "Starting replay with original timing..." *)
| Replayed (e : event)                           (* an event of [replayFrames] *)
| Completed                             (* "Replay completed successfully!" *)
| Disconnected                                   (* the deferred [bus.Disconnect()] *)
| Fatal (f : fatal)
| FlagProblem                                    (* the message of [flag.Parse] *)
| Usage.                                         (* the usage of the flags *)

(** How the process stands when the fuel is spent. *)
Inductive ending : Type :=
| Exit (code : Z)
| Crash (e : runtimeError)
| Unfinished.

Section Program.

Context {B : Type} {T : can.Bus B}.

(** [cmd] is what [flag.Parse] makes of the command line; [files] is the
    file each name stands for; [NewBusForInterfaceWithName] is the
    transport's constructor, which gives a bus or an error.  [fuel] bounds
    the passes of the replay. *)
Definition main (fuel : nat) (cmd : commandLine) (files : string -> csvSource)
  (NewBusForInterfaceWithName : string -> B + string) : list output * ending :=
  match cmd with
  | HelpRequested => ([Usage], Exit 0)
  | BadFlag => ([FlagProblem; Usage], Exit 2)
  | Parsed fl =>
  if String.eqb (csvFile fl) "" then ([Fatal NoCSVFlag], Exit 1)
  else
    let '(log, r) := parseCSV (files (csvFile fl)) in
    let out := ParsingFile (csvFile fl) :: map Warned log in
    match r with
    | Panics e => (out, Crash e)
    | Returns (frames, Some err) => (out ++ [Fatal (ParseFailed err)], Exit 1)
    | Returns (frames, None) =>
        let out := out ++ [Loaded (List.length frames)] in
        let out :=
          if (0 <? List.length frames)%nat
          then
            out ++ [TotalDuration
                      (microseconds
                         (wrap64 (Timestamp (nth (List.length frames - 1) frames zeroFrame)
                                  - Timestamp (nth 0 frames zeroFrame))))]
          else out in
        let out := out ++ [OpeningInterface (canInterface fl)] in
        match NewBusForInterfaceWithName (canInterface fl) with
        | inr cause => (out ++ [Fatal (OpenInterfaceFailed cause)], Exit 1)
        | inl bus =>
            let out := out ++ [Starting] in
            let '(evs, bus', st) := replayFrames fuel bus frames (loopFlag fl) in
            let out := out ++ map Replayed evs in
            match st with
            | Running => (out, Unfinished)
            | Returned (Some err) => (out ++ [Fatal (ReplayFailed err)], Exit 1)
            | Returned None => (out ++ [Completed; Disconnected], Exit 0)
            end
        end
    end
  end.

End Program.

(** The output of the program up to the opening of the interface. *)
Definition opening (fl : flags) (log : list warning) (frames : list CANFrame) : list output :=
  let out := (ParsingFile (csvFile fl) :: map Warned log) ++ [Loaded (List.length frames)] in
  let out :=
    if (0 <? List.length frames)%nat
    then
      out ++ [TotalDuration
                (microseconds
                   (wrap64 (Timestamp (nth (List.length frames - 1) frames zeroFrame)
                            - Timestamp (nth 0 frames zeroFrame))))]
    else out in
  out ++ [OpeningInterface (canInterface fl)].

Section Calls.

Context {B : Type} {T : can.Bus B}.

(** [bus.Publish] called on the frames [fs] one after the other, from the
    state [bus]: the answers and the state reached. *)
Fixpoint calls (bus : B) (fs : list can.Frame) : list (option string) * B :=
  match fs with
  | [] => ([], bus)
  | f :: fs' =>
      let '(bus', a) := can.Publish bus f in
      let '(answers, bus'') := calls bus' fs' in
      (a :: answers, bus'')
  end.

End Calls.

(** A sample command line, file system and interface constructor. *)
Definition sampleFlags : flags := mkFlags "trace.csv" "vcan0" false.

Definition sampleFiles (rows : list (list string)) (name : string) : csvSource :=
  if String.eqb name "trace.csv" then Records (sampleHeader :: rows) else CannotOpen.

Definition sampleInterface (n : nat) (name : string) : nat + string :=
  if String.eqb name "vcan0" then inl n else inr "no such device".

(** The events of the replay among the output of the process. *)
Fixpoint replayed (out : list output) : list event :=
  match out with
  | [] => []
  | Replayed e :: r => e :: replayed r
  | _ :: r => replayed r
  end.

(** A transport that accepts every frame. *)
#[local] Instance alwaysAccept : can.Bus unit := {
  Publish := fun bus f => (bus, None);
  EFF := 128
}.

(** ** Facts on the library functions *)

Ltac to_prop :=
  repeat match goal with
    | H : (_ && _)%bool = true |- _ => apply andb_prop in H; destruct H
    | H : (_ || _)%bool = false |- _ => apply orb_false_elim in H; destruct H
    | H : (_ <=? _) = true |- _ => apply Z.leb_le in H
    | H : (_ <=? _) = false |- _ => apply Z.leb_gt in H
    | H : (_ <? _) = true |- _ => apply Z.ltb_lt in H
    | H : (_ <? _) = false |- _ => apply Z.ltb_ge in H
    | H : (_ >? _) = true |- _ => apply Z.gtb_lt in H
    | H : (_ >? _) = false |- _ => rewrite Z.gtb_ltb in H
    | H : (_ >=? _) = true |- _ => rewrite Z.geb_leb in H
    | H : (_ >=? _) = false |- _ => rewrite Z.geb_leb in H
    | H : (_ =? _) = true |- _ => apply Z.eqb_eq in H
    | H : (_ =? _) = false |- _ => apply Z.eqb_neq in H
    end.

Lemma digit_range (c d : Z) :
  strconv.digit c = Some d -> 0 <= d.
Proof.
  unfold strconv.digit.
  destruct ((48 <=? c) && (c <=? 57))%bool eqn:E1.
  - intros [= <-]. to_prop. lia.
  - destruct ((97 <=? strconv.lower c) && (strconv.lower c <=? 122))%bool eqn:E2;
      [|discriminate].
    intros [= <-]. to_prop. lia.
Qed.

Lemma numeral_ge (base : Z) (s : string) :
  1 <= base ->
  forall acc v, 0 <= acc -> numeral base s acc = Some v -> acc <= v.
Proof.
  intros Hb. induction s as [|c s IH]; simpl; intros acc v Hacc H.
  - injection H as <-. lia.
  - destruct (strconv.digit (code c)) as [d|] eqn:Ed; [|discriminate].
    destruct (d <? base) eqn:Elt; [|discriminate].
    apply digit_range in Ed. apply IH in H; nia.
Qed.

(** [ParseUint]'s loop returns the value of the numeral when it fits, and a
    range error when it does not. *)
Lemma digits_numeral (base maxVal : Z) (s : string) :
  2 <= base <= 36 -> 0 <= maxVal <= maxUint64 ->
  forall n v, 0 <= n <= maxVal -> numeral base s n = Some v ->
    strconv.digits base maxVal (maxUint64 / base + 1) s n =
      if v <=? maxVal then (v, None) else (maxVal, Some strconv.ErrRange).
Proof.
  intros Hb Hm. induction s as [|c s IH]; simpl; intros n v Hn H.
  - injection H as <-. destruct (n <=? maxVal) eqn:E; to_prop; [reflexivity|lia].
  - destruct (strconv.digit (code c)) as [d|] eqn:Ed; [|discriminate].
    destruct (d <? base) eqn:Elt; [|discriminate].
    pose proof (digit_range _ _ Ed) as Hd. to_prop.
    assert (Hv : n * base + d <= v) by (apply (numeral_ge base s); [lia|nia|exact H]).
    replace (d >=? base) with false by (symmetry; rewrite Z.geb_leb; apply Z.leb_gt; lia).
    unfold maxUint64 in *.
    destruct (n >=? (2 ^ 64 - 1) / base + 1) eqn:Ec; to_prop.
    + assert (2 ^ 64 - 1 < n * base).
      { pose proof (Z.mul_succ_div_gt (2 ^ 64 - 1) base ltac:(lia)). nia. }
      destruct (v <=? maxVal) eqn:E; to_prop; [lia|reflexivity].
    + apply Z.leb_gt in Ec.
      assert (Hnb : n * base <= 2 ^ 64 - 1).
      { pose proof (Z.mul_div_le (2 ^ 64 - 1) base ltac:(lia)). nia. }
      unfold wrap64. rewrite (Z.mod_small (n * base)) by nia.
      destruct (Z_lt_le_dec (n * base + d) (2 ^ 64)) as [Hs|Hs].
      * rewrite (Z.mod_small (n * base + d)) by nia.
        replace (n * base + d <? n * base) with false
          by (symmetry; apply Z.ltb_ge; lia).
        simpl. destruct (n * base + d >? maxVal) eqn:Eg; to_prop.
        -- destruct (v <=? maxVal) eqn:E; to_prop; [lia|reflexivity].
        -- apply Z.ltb_ge in Eg. apply IH; [nia|exact H].
      * replace ((n * base + d) mod 2 ^ 64) with (n * base + d - 2 ^ 64)
          by (apply Z.mod_unique with (q := 1); lia).
        replace (n * base + d - 2 ^ 64 <? n * base) with true
          by (symmetry; apply Z.ltb_lt; lia).
        simpl. destruct (v <=? maxVal) eqn:E; to_prop; [lia|reflexivity].
Qed.

Lemma ParseUint_numeral (s : string) (base bitSize v : Z) :
  2 <= base <= 36 -> 1 <= bitSize <= 64 -> s <> "" ->
  numeral base s 0 = Some v ->
  strconv.ParseUint s base bitSize =
    if v <=? 2 ^ bitSize - 1 then (v, None)
    else (2 ^ bitSize - 1, Some strconv.ErrRange).
Proof.
  intros Hb Hs Hne H. unfold strconv.ParseUint.
  destruct s as [|c s]; [congruence|].
  assert (0 < 2 ^ bitSize <= 2 ^ 64).
  { split; [apply Z.pow_pos_nonneg; lia|apply Z.pow_le_mono_r; lia]. }
  apply digits_numeral; unfold maxUint64; try lia. exact H.
Qed.

Lemma digits_bound (base maxVal cutoff : Z) (s : string) :
  forall n v, 0 <= n <= maxVal ->
    strconv.digits base maxVal cutoff s n = (v, None) -> 0 <= v <= maxVal.
Proof.
  induction s as [|c s IH]; simpl; intros n v Hn H.
  - injection H as <-. exact Hn.
  - destruct (strconv.digit (code c)) as [d|]; [|discriminate].
    destruct (d >=? base); [discriminate|].
    destruct (n >=? cutoff); [discriminate|].
    destruct (_ || _)%bool eqn:E; [discriminate|].
    to_prop. apply (IH (wrap64 (wrap64 (n * base) + d))); [|exact H].
    split; [|lia]. unfold wrap64. apply Z.mod_pos_bound. lia.
Qed.

Lemma ParseUint_bound (s : string) (base bitSize v : Z) :
  0 <= bitSize ->
  strconv.ParseUint s base bitSize = (v, None) -> 0 <= v < 2 ^ bitSize.
Proof.
  intros Hs H. unfold strconv.ParseUint in H.
  destruct s as [|c s]; [discriminate|].
  pose proof (Z.pow_pos_nonneg 2 bitSize ltac:(lia) Hs).
  apply digits_bound in H; lia.
Qed.

Lemma numeral_TrimLeft_zeros (base : Z) (s : string) :
  1 <= base -> numeral base (strings.TrimLeft s "0") 0 = numeral base s 0.
Proof.
  intros Hb. induction s as [|c s IH]; [reflexivity|].
  cbn [strings.TrimLeft]. unfold strings.inCutset. cbn [list_ascii_of_string existsb].
  rewrite orb_false_r.
  destruct (Ascii.eqb c "0") eqn:E; [|reflexivity].
  apply Ascii.eqb_eq in E. subst c. rewrite IH.
  cbn [numeral]. change (strconv.digit (code "0")) with (Some 0).
  cbv beta iota. rewrite Z.mul_0_l, Z.add_0_l.
  destruct (0 <? base) eqn:E; to_prop; [reflexivity|lia].
Qed.

(** The identifier column: the value it denotes when that fits 32 bits, a
    range error when it does not. *)
Lemma parseID_identifierOf (col : string) (v : Z) :
  identifierOf col = Some v ->
  parseID col =
    if v <=? 4294967295 then (v, None) else (4294967295, Some strconv.ErrRange).
Proof.
  unfold identifierOf, parseID. intros H.
  rewrite <- (numeral_TrimLeft_zeros 16) in H by lia.
  destruct (String.eqb _ "") eqn:E.
  - apply String.eqb_eq in E. rewrite E in H. injection H as <-. reflexivity.
  - apply String.eqb_neq in E.
    apply (ParseUint_numeral _ 16 32 v); try lia; assumption.
Qed.

(** ** Facts on the row parser *)

Lemma store_length {A : Type} (s : list A) :
  forall i v, List.length (store s i v) = List.length s.
Proof.
  induction s as [|h t IH]; intros [|i] v; simpl; auto.
Qed.

Lemma store_nth (s : list Z) :
  forall i k v, (i < List.length s)%nat ->
    nth k (store s i v) 0 = if (k =? i)%nat then v else nth k s 0.
Proof.
  induction s as [|h t IH]; intros [|i] [|k] v Hi; simpl in *; try lia; auto.
  apply IH. lia.
Qed.

Lemma parseData_ok (n i : nat) (record : list string) (frame : CANFrame)
  (col : string) (b : Z) :
  nth_error record (6 + i) = Some col -> oneByte col = Some b ->
  parseData (S n) i record frame =
    parseData n (S i) record (setData frame (store (Data frame) i b)).
Proof.
  intros Hc Hb. cbn [parseData]. unfold index, bind. rewrite Hc.
  unfold oneByte, trimmed in Hb.
  destruct (hex.DecodeString _) as [bs [e|]]; [destruct bs as [|? [|? ?]]; discriminate|].
  destruct bs as [|b0 [|? ?]]; try discriminate. injection Hb as ->. reflexivity.
Qed.

Lemma parseData_bad (n i : nat) (record : list string) (frame : CANFrame)
  (col : string) :
  nth_error record (6 + i) = Some col -> oneByte col = None ->
  parseData (S n) i record frame =
    Returns (frame, Some (InvalidDataByte (i + 1) (trimmed col))).
Proof.
  intros Hc Hb. cbn [parseData]. unfold index, bind. rewrite Hc.
  unfold oneByte in Hb. fold (trimmed col).
  destruct (hex.DecodeString _) as [bs [e|]].
  - destruct bs as [|? [|? ?]]; reflexivity.
  - destruct bs as [|b0 [|? ?]]; try discriminate; reflexivity.
Qed.

Lemma parseData_missing (n i : nat) (record : list string) (frame : CANFrame) :
  nth_error record (6 + i) = None ->
  parseData (S n) i record frame =
    Panics (IndexOutOfRange (6 + i) (List.length record)).
Proof.
  intros Hc. cbn [parseData]. unfold index, bind. rewrite Hc. reflexivity.
Qed.

Lemma wellFormed_tail (record : list string) (i k : nat) :
  wellFormed record i (S k) -> wellFormed record (S i) k.
Proof.
  intros H j Hj. destruct (H (S j) ltac:(lia)) as (col & b & Hc & Hb).
  exists col, b. split; [|exact Hb]. rewrite <- Hc. f_equal. lia.
Qed.

Lemma parseData_first_bad (record : list string) (col : string) :
  forall k n i frame, (k < n)%nat ->
    wellFormed record i k ->
    nth_error record (6 + (i + k)) = Some col -> oneByte col = None ->
    exists frame',
      parseData n i record frame =
        Returns (frame', Some (InvalidDataByte (i + k + 1) (trimmed col))).
Proof.
  induction k as [|k IH]; intros n i frame Hk Hw Hc Hb.
  - destruct n as [|n]; [lia|]. exists frame.
    rewrite Nat.add_0_r in *. apply parseData_bad; assumption.
  - destruct n as [|n]; [lia|].
    destruct (Hw 0%nat ltac:(lia)) as (c0 & b0 & Hc0 & Hb0).
    rewrite Nat.add_0_r in Hc0. rewrite (parseData_ok _ _ _ _ _ _ Hc0 Hb0).
    replace (i + S k + 1)%nat with (S i + k + 1)%nat by lia.
    apply IH; [lia|apply wellFormed_tail; exact Hw| |exact Hb].
    rewrite <- Hc. f_equal. lia.
Qed.

Lemma parseData_first_missing (record : list string) :
  forall k n i frame, (k < n)%nat ->
    wellFormed record i k ->
    nth_error record (6 + (i + k)) = None ->
    parseData n i record frame =
      Panics (IndexOutOfRange (6 + (i + k)) (List.length record)).
Proof.
  induction k as [|k IH]; intros n i frame Hk Hw Hc.
  - destruct n as [|n]; [lia|].
    rewrite Nat.add_0_r in *. apply parseData_missing; assumption.
  - destruct n as [|n]; [lia|].
    destruct (Hw 0%nat ltac:(lia)) as (c0 & b0 & Hc0 & Hb0).
    rewrite Nat.add_0_r in Hc0. rewrite (parseData_ok _ _ _ _ _ _ Hc0 Hb0).
    replace (6 + (i + S k))%nat with (6 + (S i + k))%nat in * by lia.
    apply IH; [lia|apply wellFormed_tail; exact Hw|exact Hc].
Qed.

(** What a successful run of the data loop leaves in the frame. *)
Lemma parseData_success (record : list string) :
  forall n i frame frame',
    (i + n <= List.length (Data frame))%nat ->
    parseData n i record frame = Returns (frame', None) ->
    Timestamp frame' = Timestamp frame /\ ID frame' = ID frame /\
    Extended frame' = Extended frame /\ Length frame' = Length frame /\
    List.length (Data frame') = List.length (Data frame) /\
    (forall k, (k < i \/ i + n <= k)%nat ->
       nth k (Data frame') 0 = nth k (Data frame) 0) /\
    (forall k, (i <= k < i + n)%nat ->
       exists col, nth_error record (6 + k) = Some col /\
                   oneByte col = Some (nth k (Data frame') 0)).
Proof.
  induction n as [|n IH]; intros i frame frame' Hlen H.
  - cbn in H. injection H as <-. repeat split; auto. intros k Hk. lia.
  - destruct (nth_error record (6 + i)) as [col|] eqn:Hc;
      [|rewrite parseData_missing in H by assumption; discriminate].
    destruct (oneByte col) as [b|] eqn:Hb;
      [|rewrite (parseData_bad _ _ _ _ col) in H by assumption; discriminate].
    rewrite (parseData_ok _ _ _ _ _ _ Hc Hb) in H.
    apply IH in H; [|cbn; rewrite store_length; lia].
    cbn in H. rewrite store_length in H.
    destruct H as (H1 & H2 & H3 & H4 & H5 & H6 & H7).
    repeat split; auto.
    + intros k Hk. rewrite H6 by lia. rewrite store_nth by lia.
      replace (k =? i)%nat with false by (symmetry; apply Nat.eqb_neq; lia).
      reflexivity.
    + intros k Hk. destruct (Nat.eq_dec k i) as [->|Hne].
      * exists col. split; [exact Hc|]. rewrite H6 by lia.
        rewrite store_nth by lia. rewrite Nat.eqb_refl. exact Hb.
      * apply H7. lia.
Qed.

Lemma parseData_wellFormed (record : list string) :
  forall n i frame, wellFormed record i n ->
    exists frame', parseData n i record frame = Returns (frame', None).
Proof.
  induction n as [|n IH]; intros i frame Hw.
  - exists frame. reflexivity.
  - destruct (Hw 0%nat ltac:(lia)) as (c0 & b0 & Hc0 & Hb0).
    rewrite Nat.add_0_r in Hc0. rewrite (parseData_ok _ _ _ _ _ _ Hc0 Hb0).
    apply IH. apply wellFormed_tail. exact Hw.
Qed.

(** The only error of the data loop is the one that names a column. *)
Lemma parseData_error (record : list string) :
  forall n i frame frame' err,
    parseData n i record frame = Returns (frame', Some err) ->
    exists d dataStr,
      err = InvalidDataByte d dataStr /\ (i + 1 <= d <= i + n)%nat.
Proof.
  induction n as [|n IH]; intros i frame frame' err H.
  - discriminate.
  - destruct (nth_error record (6 + i)) as [col|] eqn:Hc;
      [|rewrite parseData_missing in H by assumption; discriminate].
    destruct (oneByte col) as [b|] eqn:Hb.
    + rewrite (parseData_ok _ _ _ _ _ _ Hc Hb) in H.
      apply IH in H. destruct H as (d & t & -> & Hd).
      exists d, t. split; [reflexivity|lia].
    + rewrite (parseData_bad _ _ _ _ col) in H by assumption.
      injection H as _ <-. eexists. eexists. split; [reflexivity|lia].
Qed.

Lemma parseID_bound (col : string) (id : Z) :
  parseID col = (id, None) -> 0 <= id < 2 ^ 32.
Proof. unfold parseID. apply ParseUint_bound. lia. Qed.

Lemma parseCANFrame_header (record : list string) (ts id len : Z) (ext : bool) :
  header record = Some (ts, id, ext, len) ->
  parseCANFrame record =
    parseData (Nat.min (Z.to_nat len) 8) 0 record
      (mkCANFrame ts id ext (repeat 0 (Z.to_nat len)) len)
  /\ 0 <= len < 256.
Proof.
  unfold header, parseCANFrame, index, bind.
  destruct (nth_error record 0) as [c0|]; [|discriminate].
  destruct (nth_error record 1) as [c1|]; [|discriminate].
  destruct (nth_error record 2) as [c2|]; [|discriminate].
  destruct (nth_error record 5) as [c5|]; [|discriminate].
  destruct (strconv.ParseUint c0 10 64) as [ts' [e|]]; [discriminate|].
  destruct (parseID c1) as [id' [e|]] eqn:Eid; [discriminate|].
  destruct (strconv.ParseUint c5 10 8) as [len' [e|]] eqn:Elen; [discriminate|].
  intros [= -> -> <- ->].
  apply parseID_bound in Eid. apply ParseUint_bound in Elen; [|lia].
  change (2 ^ 8) with 256 in *.
  cbn [setTimestamp setID setExtended setLength setData zeroFrame
       Timestamp ID Extended Data Length].
  rewrite (Z.mod_small id) by lia. rewrite (Z.mod_small len) by lia.
  split; [reflexivity|lia].
Qed.

Lemma parseCANFrame_accepts (record : list string) (frame : CANFrame) :
  parseCANFrame record = Returns (frame, None) ->
  exists ts id ext len, header record = Some (ts, id, ext, len).
Proof.
  unfold header, parseCANFrame, index, bind.
  destruct (nth_error record 0) as [c0|]; [|discriminate].
  destruct (strconv.ParseUint c0 10 64) as [ts' [e|]]; [discriminate|].
  destruct (nth_error record 1) as [c1|]; [|discriminate].
  destruct (parseID c1) as [id' [e|]]; [discriminate|].
  destruct (nth_error record 2) as [c2|]; [|discriminate].
  destruct (nth_error record 5) as [c5|]; [|discriminate].
  destruct (strconv.ParseUint c5 10 8) as [len' [e|]]; [discriminate|].
  intros _. eauto.
Qed.

(** A frame the parser accepts: its fields are the header's, its payload has
    the declared length, the first [min(length, 8)] bytes are the data columns
    and the others are zero. *)
Lemma parseCANFrame_frame (record : list string) (frame : CANFrame)
  (ts id len : Z) (ext : bool) :
  header record = Some (ts, id, ext, len) ->
  parseCANFrame record = Returns (frame, None) ->
  Timestamp frame = ts /\ ID frame = id /\ Extended frame = ext /\
  Length frame = len /\
  Z.of_nat (List.length (Data frame)) = len /\
  (forall k, (k < 8)%nat -> Z.of_nat k < len ->
     exists col, nth_error record (6 + k) = Some col /\
                 oneByte col = Some (nth k (Data frame) 0)) /\
  (forall k, (8 <= k)%nat -> nth k (Data frame) 0 = 0).
Proof.
  intros Hh H. destruct (parseCANFrame_header _ _ _ _ _ Hh) as [E Hlen].
  rewrite E in H. apply parseData_success in H;
    [|cbn; rewrite repeat_length; lia].
  cbn in H. rewrite repeat_length in H.
  destruct H as (H1 & H2 & H3 & H4 & H5 & H6 & H7).
  repeat split; auto; try lia.
  - intros k Hk Hkl. apply H7. lia.
  - intros k Hk. rewrite H6 by lia. apply nth_repeat.
Qed.

Lemma nth_error_present {A : Type} (l : list A) (j : nat) :
  (j < List.length l)%nat -> exists a, nth_error l j = Some a.
Proof.
  intros H. destruct (nth_error l j) eqn:E; [eauto|].
  apply nth_error_None in E. lia.
Qed.

(** ** Facts on the loader *)

Lemma parseRows_short (i : nat) (record : list string) (rest : list (list string))
  (frames : list CANFrame) :
  (List.length record < 12)%nat ->
  parseRows i (record :: rest) frames =
    (InsufficientColumns (i + 2) :: fst (parseRows (S i) rest frames),
     snd (parseRows (S i) rest frames)).
Proof.
  intros H. cbn [parseRows].
  replace (List.length record <? 12)%nat with true
    by (symmetry; apply Nat.ltb_lt; exact H).
  destruct (parseRows (S i) rest frames). reflexivity.
Qed.

Lemma parseRows_rejected (i : nat) (record : list string) (rest : list (list string))
  (frames : list CANFrame) (frame : CANFrame) (err : error) :
  (12 <= List.length record)%nat ->
  parseCANFrame record = Returns (frame, Some err) ->
  parseRows i (record :: rest) frames =
    (RowError (i + 2) err :: fst (parseRows (S i) rest frames),
     snd (parseRows (S i) rest frames)).
Proof.
  intros H Hp. cbn [parseRows].
  replace (List.length record <? 12)%nat with false
    by (symmetry; apply Nat.ltb_ge; exact H).
  rewrite Hp. destruct (parseRows (S i) rest frames). reflexivity.
Qed.

Lemma parseRows_accepted (i : nat) (record : list string) (rest : list (list string))
  (frames : list CANFrame) (frame : CANFrame) :
  (12 <= List.length record)%nat ->
  parseCANFrame record = Returns (frame, None) ->
  parseRows i (record :: rest) frames = parseRows (S i) rest (frames ++ [frame]).
Proof.
  intros H Hp. cbn [parseRows].
  replace (List.length record <? 12)%nat with false
    by (symmetry; apply Nat.ltb_ge; exact H).
  rewrite Hp. reflexivity.
Qed.

Lemma parseRows_panics (i : nat) (record : list string) (rest : list (list string))
  (frames : list CANFrame) (e : runtimeError) :
  (12 <= List.length record)%nat ->
  parseCANFrame record = Panics e ->
  parseRows i (record :: rest) frames = ([], Panics e).
Proof.
  intros H Hp. cbn [parseRows].
  replace (List.length record <? 12)%nat with false
    by (symmetry; apply Nat.ltb_ge; exact H).
  rewrite Hp. reflexivity.
Qed.

(** The loop over a concatenation: the rows of [pre], then those of [post]
    from the index and the frames reached. *)
Lemma parseRows_app (pre post : list (list string)) :
  forall i frames,
    parseRows i (pre ++ post) frames =
      match parseRows i pre frames with
      | (log, Returns frames') =>
          (log ++ fst (parseRows (i + List.length pre) post frames'),
           snd (parseRows (i + List.length pre) post frames'))
      | (log, Panics e) => (log, Panics e)
      end.
Proof.
  induction pre as [|record pre IH]; intros i frames.
  - cbn. rewrite Nat.add_0_r. destruct (parseRows i post frames). reflexivity.
  - cbn [app parseRows List.length].
    replace (i + S (List.length pre))%nat with (S i + List.length pre)%nat by lia.
    destruct (List.length record <? 12)%nat.
    + rewrite IH. destruct (parseRows (S i) pre frames) as [log [fs|e]]; reflexivity.
    + destruct (parseCANFrame record) as [[frame [err|]]|e].
      * rewrite IH. destruct (parseRows (S i) pre frames) as [log [fs|e]]; reflexivity.
      * apply IH.
      * reflexivity.
Qed.

Lemma TrimPrefix_0x (s : string) : strings.TrimPrefix ("0x" ++ s) "0x" = s.
Proof.
  reflexivity.
Qed.

Lemma TrimPrefix_numeral (s : string) (v : Z) :
  numeral 16 s 0 = Some v -> strings.TrimPrefix s "0x" = s.
Proof.
  unfold strings.TrimPrefix. intros H.
  destruct s as [|a [|b s]]; try reflexivity.
  - cbn [strings.HasPrefix]. destruct (Ascii.eqb "0" a); reflexivity.
  - cbn [strings.HasPrefix].
    destruct (Ascii.eqb "0" a) eqn:Ea; [|reflexivity].
    destruct (Ascii.eqb "x" b) eqn:Eb; [|reflexivity].
    apply Ascii.eqb_eq in Ea, Eb. subst a b. discriminate H.
Qed.

(** ** The claims on the parser *)

(** C9. The identifier column is read in base 16 after an optional [0x] and
    the leading zeros are dropped: a column of hex digits denoting [v], with
    or without the prefix, parses to [v] when [v] fits 32 bits; ["0x0005F4"],
    ["5F4"] and ["05f4"] parse to 0x5F4 and ["00000000"] to 0, in [parseID]
    and in the frame [parseCANFrame] returns. *)
Theorem identifier_parsing :
  (map parseID ["0x0005F4"; "5F4"; "05f4"; "00000000"] =
     [(0x5F4, None); (0x5F4, None); (0x5F4, None); (0, None)])
  /\ (map (fun id => option_map ID
              match parseCANFrame (sampleRow id "false" "8") with
              | Returns (frame, None) => Some frame
              | _ => None
              end)
        ["0x0005F4"; "5F4"; "05f4"; "00000000"] =
      [Some 0x5F4; Some 0x5F4; Some 0x5F4; Some 0])
  /\ (forall (digits : string) (v : Z),
        numeral 16 digits 0 = Some v -> v <= 0xFFFFFFFF ->
        parseID digits = (v, None) /\
        parseID ("0x" ++ digits) = (v, None) /\
        parseID ("0" ++ digits) = (v, None)).
Proof.
  split; [reflexivity|]. split; [reflexivity|].
  intros digits v H Hv.
  assert (E : forall col, identifierOf col = Some v -> parseID col = (v, None)).
  { intros col Hc. rewrite (parseID_identifierOf col v Hc).
    destruct (v <=? 4294967295) eqn:El; to_prop; [reflexivity|lia]. }
  repeat split; apply E; unfold identifierOf.
  - rewrite (TrimPrefix_numeral _ _ H). exact H.
  - rewrite TrimPrefix_0x. exact H.
  - assert (H0 : numeral 16 ("0" ++ digits) 0 = Some v) by exact H.
    rewrite (TrimPrefix_numeral _ _ H0). exact H0.
Qed.

Lemma identifier_parsing_witness :
  parseID "1FFFFFFF" = (0x1FFFFFFF, None) /\
  parseID "0x1FFFFFFF" = (0x1FFFFFFF, None) /\
  parseID "01FFFFFF" = (0x1FFFFFF, None).
Proof.
  destruct identifier_parsing as (_ & _ & H).
  destruct (H "1FFFFFFF" 0x1FFFFFFF eq_refl ltac:(lia)) as (H1 & H2 & _).
  destruct (H "1FFFFFF" 0x1FFFFFF eq_refl ltac:(lia)) as (_ & _ & H3).
  exact (conj H1 (conj H2 H3)).
Defined.

(** C5, as stated, fails: a standard frame with identifier 0x800 (12 bits)
    and an extended frame with identifier 0x20000000 (30 bits) are both
    loaded, without a warning. *)
Lemma identifier_width_not_checked :
  exists f1 f2,
    parseCSV (Records [sampleHeader;
                       sampleRow "800" "false" "8";
                       sampleRow "20000000" "true" "8"])
    = ([], Returns ([f1; f2], None))
    /\ Extended f1 = false /\ ID f1 = 0x800 /\ 2 ^ 11 <= ID f1
    /\ Extended f2 = true /\ ID f2 = 0x20000000 /\ 2 ^ 29 <= ID f2.
Proof.
  eexists. eexists. split; [vm_compute; reflexivity|].
  cbn. repeat split; lia.
Qed.

(** C5, amended. The width the parser enforces is 32 bits, whatever the
    extended flag: a row of at least 12 columns whose identifier column
    denotes a value above 0xFFFFFFFF is skipped with a warning for its row
    (with the reason "invalid CAN ID", a range error, when its timestamp
    parses), and an identifier that fits 32 bits is never the reason a row
    is refused. *)
Theorem identifier_range_32_bits (record : list string) (col : string) (v : Z) :
  nth_error record 1 = Some col ->
  identifierOf col = Some v ->
  (0xFFFFFFFF < v -> (12 <= List.length record)%nat ->
   forall i rest frames,
   exists err,
     parseRows i (record :: rest) frames =
       (RowError (i + 2) err :: fst (parseRows (S i) rest frames),
        snd (parseRows (S i) rest frames))
     /\ ((exists c0 ts, nth_error record 0 = Some c0 /\
                        strconv.ParseUint c0 10 64 = (ts, None)) ->
         err = InvalidCANID strconv.ErrRange))
  /\ (v <= 0xFFFFFFFF ->
      forall frame e, parseCANFrame record <> Returns (frame, Some (InvalidCANID e))).
Proof.
  intros Hc Hv. pose proof (parseID_identifierOf col v Hv) as Hid. split.
  - intros Hbig Hlen i rest frames.
    replace (v <=? 4294967295) with false in Hid by (symmetry; apply Z.leb_gt; lia).
    destruct (nth_error_present record 0 ltac:(lia)) as [c0 Hc0].
    assert (Hp : exists frame err,
               parseCANFrame record = Returns (frame, Some err) /\
               ((exists c0 ts, nth_error record 0 = Some c0 /\
                   strconv.ParseUint c0 10 64 = (ts, None)) ->
                err = InvalidCANID strconv.ErrRange)).
    { unfold parseCANFrame, index, bind. rewrite Hc0, Hc, Hid.
      destruct (strconv.ParseUint c0 10 64) as [ts [e|]] eqn:Ets.
      - eexists. eexists. split; [reflexivity|].
        intros (c0' & ts' & Hc0' & Hts'). congruence.
      - eexists. eexists. split; [reflexivity|]. reflexivity. }
    destruct Hp as (frame & err & Hp & Herr). exists err. split; [|exact Herr].
    apply (parseRows_rejected _ _ _ _ frame); assumption.
  - intros Hsmall frame e.
    replace (v <=? 4294967295) with true in Hid by (symmetry; apply Z.leb_le; lia).
    unfold parseCANFrame, index, bind. rewrite Hc, Hid.
    destruct (nth_error record 0) as [c0|]; [|discriminate].
    destruct (strconv.ParseUint c0 10 64) as [ts [e0|]]; [discriminate|].
    destruct (nth_error record 2) as [c2|]; [|discriminate].
    destruct (nth_error record 5) as [c5|]; [|discriminate].
    destruct (strconv.ParseUint c5 10 8) as [len [e0|]]; [discriminate|].
    intros H. apply parseData_error in H. destruct H as (d & t & H & _).
    discriminate H.
Qed.

Lemma identifier_range_32_bits_witness :
  (exists err,
     parseRows 0 [sampleRow "0x100000000" "true" "8"] [] =
       ([RowError 2 err], Returns [])
     /\ err = InvalidCANID strconv.ErrRange)
  /\ (forall frame e,
        parseCANFrame (sampleRow "FFFFFFFF" "false" "8")
        <> Returns (frame, Some (InvalidCANID e))).
Proof.
  split.
  - destruct (proj1 (identifier_range_32_bits
                       (sampleRow "0x100000000" "true" "8") "0x100000000"
                       0x100000000 eq_refl eq_refl)
                ltac:(lia) ltac:(cbn; lia) 0%nat [] []) as (err & H1 & H2).
    exists err. split; [exact H1|].
    apply H2. exists "18970798", 18970798. split; reflexivity.
  - apply (proj2 (identifier_range_32_bits
                    (sampleRow "FFFFFFFF" "false" "8") "FFFFFFFF"
                    0xFFFFFFFF eq_refl eq_refl)).
    lia.
Defined.

(** C10. The payload of a frame the parser accepts has exactly the declared
    length, also above 8; byte [k], for [k < min(length, 8)], is what column
    [D(k+1)] decodes to, and every byte from index 8 on is zero. *)
Theorem payload_of_accepted_row (record : list string) (frame : CANFrame) :
  parseCANFrame record = Returns (frame, None) ->
  (exists ts id ext, header record = Some (ts, id, ext, Length frame))
  /\ Z.of_nat (List.length (Data frame)) = Length frame
  /\ (forall k, (k < 8)%nat -> Z.of_nat k < Length frame ->
        exists col, nth_error record (6 + k) = Some col /\
                    oneByte col = Some (nth k (Data frame) 0))
  /\ (forall k, (8 <= k)%nat -> nth k (Data frame) 0 = 0).
Proof.
  intros H. destruct (parseCANFrame_accepts _ _ H) as (ts & id & ext & len & Hh).
  destruct (parseCANFrame_frame _ _ _ _ _ _ Hh H) as (_ & _ & _ & <- & H5 & H6 & H7).
  split; [eauto|]. split; [exact H5|]. split; assumption.
Qed.

Lemma payload_of_accepted_row_witness :
  let frame := mkCANFrame 18970798 0x5F4 false [0; 9; 0x1C; 0x46; 0; 0; 0; 1; 0; 0] 10 in
  Z.of_nat (List.length (Data frame)) = 10
  /\ (exists col, nth_error (sampleRow "5F4" "false" "10") (6 + 2) = Some col /\
                  oneByte col = Some 0x1C)
  /\ nth 9 (Data frame) 0 = 0.
Proof.
  intros frame.
  destruct (payload_of_accepted_row (sampleRow "5F4" "false" "10") frame eq_refl)
    as (_ & H1 & H2 & H3).
  split; [exact H1|]. split; [|apply H3; lia].
  apply (H2 2%nat); cbn; lia.
Defined.

(** C4, as stated, fails: a row that declares length 9 and carries eight
    well-formed data columns is loaded, with no warning, as a frame of
    length 9. *)
Lemma declared_length_9_accepted :
  parseCSV (Records [sampleHeader; sampleRow "5F4" "false" "9"]) =
    ([], Returns ([mkCANFrame 18970798 0x5F4 false
                     [0; 9; 0x1C; 0x46; 0; 0; 0; 1; 0] 9], None)).
Proof. reflexivity. Qed.

(** C4, amended. A row of at least 12 columns whose timestamp and identifier
    parse, whose length column parses to a value above 8 and whose columns
    [D1] .. [D8] are present and well-formed is accepted: no error is
    reported, the frame is appended to the trace with the declared length,
    its first 8 payload bytes from [D1] .. [D8] and the others zero. *)
Theorem length_above_8 (record : list string) (ts id len : Z) (ext : bool) :
  (12 <= List.length record)%nat ->
  header record = Some (ts, id, ext, len) ->
  8 < len ->
  wellFormed record 0 8 ->
  exists frame,
    parseCANFrame record = Returns (frame, None)
    /\ (forall i rest frames,
          parseRows i (record :: rest) frames = parseRows (S i) rest (frames ++ [frame]))
    /\ Length frame = len
    /\ Z.of_nat (List.length (Data frame)) = len
    /\ (forall k, (k < 8)%nat ->
          exists col, nth_error record (6 + k) = Some col /\
                      oneByte col = Some (nth k (Data frame) 0))
    /\ (forall k, (8 <= k)%nat -> nth k (Data frame) 0 = 0).
Proof.
  intros Hcols Hh Hlen Hw.
  destruct (parseCANFrame_header _ _ _ _ _ Hh) as [E Hb].
  replace (Nat.min (Z.to_nat len) 8) with 8%nat in E by lia.
  destruct (parseData_wellFormed record 8 0
              (mkCANFrame ts id ext (repeat 0 (Z.to_nat len)) len) Hw)
    as [frame Hf].
  rewrite <- E in Hf. exists frame.
  destruct (parseCANFrame_frame _ _ _ _ _ _ Hh Hf) as (_ & _ & _ & H4 & H5 & H6 & H7).
  split; [exact Hf|]. split.
  { intros i rest frames. apply parseRows_accepted; assumption. }
  repeat split; auto. intros k Hk. apply H6; lia.
Qed.

Lemma sampleRow_wellFormed (id ext len : string) :
  wellFormed (sampleRow id ext len) 0 8.
Proof.
  intros j Hj. do 8 (destruct j as [|j]; [eexists; eexists; split; reflexivity|]).
  lia.
Qed.

Lemma length_above_8_witness :
  exists frame,
    parseCANFrame (sampleRow "5F4" "true" "255") = Returns (frame, None)
    /\ Length frame = 255
    /\ Z.of_nat (List.length (Data frame)) = 255.
Proof.
  destruct (length_above_8 (sampleRow "5F4" "true" "255") 18970798 0x5F4 255 true
              ltac:(cbn; lia) eq_refl ltac:(lia) (sampleRow_wellFormed _ _ _))
    as (frame & H1 & _ & H3 & H4 & _).
  exists frame. auto.
Defined.

(** A row of 12 or 13 columns passes the column check of [parseCSV]; when its
    length field asks for more data columns than it has, the read of the
    first missing column is out of range and the load panics. *)
Lemma missing_column_panics (record : list string) (ts id len : Z) (ext : bool)
  (k : nat) :
  (12 <= List.length record)%nat ->
  header record = Some (ts, id, ext, len) ->
  (k < Nat.min (Z.to_nat len) 8)%nat ->
  wellFormed record 0 k ->
  (List.length record <= 6 + k)%nat ->
  forall i rest frames,
    parseRows i (record :: rest) frames =
      ([], Panics (IndexOutOfRange (6 + k) (List.length record))).
Proof.
  intros Hcols Hh Hk Hw Hmiss i rest frames.
  apply parseRows_panics; [exact Hcols|].
  destruct (parseCANFrame_header _ _ _ _ _ Hh) as [-> _].
  apply (parseData_first_missing record k); [exact Hk|exact Hw|].
  apply nth_error_None. cbn. lia.
Qed.

Lemma sameWidth_uniform (head : list string) (rows : list (list string)) :
  csv.sameWidth (head :: rows) = true <->
  Forall (fun record => List.length record = List.length head) rows.
Proof.
  cbn [csv.sameWidth]. rewrite forallb_forall, Forall_forall.
  split; intros H record Hin; specialize (H record Hin);
    [apply Nat.eqb_eq|apply Nat.eqb_eq]; exact H.
Qed.

(** [parseCSV] on the records of a file. *)
Lemma parseCSV_records (records : list (list string)) :
  parseCSV (Records records) =
    if csv.sameWidth records then
      if (List.length records <? 2)%nat then ([], Returns ([], Some NoDataRows))
      else
        (fst (parseRows 0 (tl records) []),
         frames <- snd (parseRows 0 (tl records) []) ;; Returns (frames, None))
    else ([], Returns ([], Some ReadFailed)).
Proof.
  unfold parseCSV, csv.ReadAll. destruct (csv.sameWidth records); [|reflexivity].
  destruct (List.length records <? 2)%nat; [reflexivity|].
  destruct (parseRows 0 (tl records) []). reflexivity.
Qed.

(** C1. The code breaks the claim on a row that passes the column check of
    line 45 (12 columns) while its length field asks for a data column the
    row does not have (line 96 reads up to column 14).  In a file the reader
    accepts, let such a row have its first six columns parse and its data
    columns before the first missing one, [D(k+1)], well-formed.  The load
    panics at the read of the missing column with an index out of range: the
    row is not skipped, no reason names [D(k+1)], the rows after it are not
    parsed and the frames of the rows before it are lost. *)
Theorem missing_payload_column_panics (head record : list string)
  (pre post : list (list string)) (ts id len : Z) (ext : bool) (k : nat)
  (log : list warning) (frames : list CANFrame) :
  csv.sameWidth (head :: pre ++ record :: post) = true ->
  (12 <= List.length record)%nat ->
  header record = Some (ts, id, ext, len) ->
  (k < Nat.min (Z.to_nat len) 8)%nat ->
  wellFormed record 0 k ->
  (List.length record <= 6 + k)%nat ->
  parseRows 0 pre [] = (log, Returns frames) ->
  parseCSV (Records (head :: pre ++ record :: post)) =
    (log, Panics (IndexOutOfRange (6 + k) (List.length record))).
Proof.
  intros Hsame Hcols Hh Hk Hw Hmiss Hpre.
  rewrite parseCSV_records, Hsame. cbn [List.length tl].
  replace (S (List.length (pre ++ record :: post)) <? 2)%nat with false.
  2:{ symmetry. apply Nat.ltb_ge. rewrite length_app. cbn. lia. }
  rewrite parseRows_app, Hpre.
  rewrite (missing_column_panics record ts id len ext k Hcols Hh Hk Hw Hmiss).
  cbn. rewrite app_nil_r. reflexivity.
Qed.

Lemma missing_payload_column_panics_witness :
  parseCSV (Records [firstn 13 sampleHeader;
                     firstn 13 (sampleRow "5F4" "false" "4");
                     firstn 13 (sampleRow "5F4" "false" "8");
                     firstn 13 (sampleRow "5F4" "false" "2")]) =
    ([], Panics (IndexOutOfRange 13 13)).
Proof.
  assert (Hw : wellFormed (firstn 13 (sampleRow "5F4" "false" "8")) 0 7).
  { intros j Hj. do 7 (destruct j as [|j]; [eexists; eexists; split; reflexivity|]).
    lia. }
  exact (missing_payload_column_panics (firstn 13 sampleHeader)
           (firstn 13 (sampleRow "5F4" "false" "8"))
           [firstn 13 (sampleRow "5F4" "false" "4")]
           [firstn 13 (sampleRow "5F4" "false" "2")]
           18970798 0x5F4 8 false 7 []
           [mkCANFrame 18970798 0x5F4 false [0; 9; 0x1C; 0x46] 4]
           eq_refl ltac:(cbn; lia) eq_refl ltac:(cbn; lia) Hw ltac:(cbn; lia) eq_refl).
Defined.

(** X23. Take a row of at least 12 columns whose timestamp,
    identifier and length columns parse, and let [D(k+1)], with
    [k < min(length, 8)], be its first data column that is not exactly one
    hex byte, the columns before it being well-formed and [D(k+1)] itself
    present in the row.  The parser skips the row: the warning for row
    [i + 2] carries the reason "invalid data byte D(k+1)" with the trimmed
    text of the column, the frame is not appended, and the rows after it are
    parsed as they would be without it. *)
Theorem bad_data_byte_skipped (record : list string) (ts id len : Z) (ext : bool)
  (k : nat) (col : string) :
  (12 <= List.length record)%nat ->
  header record = Some (ts, id, ext, len) ->
  (k < Nat.min (Z.to_nat len) 8)%nat ->
  wellFormed record 0 k ->
  nth_error record (6 + k) = Some col ->
  oneByte col = None ->
  forall i rest frames,
    parseRows i (record :: rest) frames =
      (RowError (i + 2) (InvalidDataByte (k + 1) (trimmed col))
         :: fst (parseRows (S i) rest frames),
       snd (parseRows (S i) rest frames))
    /\ namesColumn (RowError (i + 2) (InvalidDataByte (k + 1) (trimmed col)))
    /\ In (columnName (k + 1)) ["D1"; "D2"; "D3"; "D4"; "D5"; "D6"; "D7"; "D8"].
Proof.
  intros Hcols Hh Hk Hw Hc Hb i rest frames.
  destruct (parseCANFrame_header _ _ _ _ _ Hh) as [E _].
  destruct (parseData_first_bad record col k _ 0
              (mkCANFrame ts id ext (repeat 0 (Z.to_nat len)) len) Hk Hw Hc Hb)
    as [frame' Hf].
  rewrite <- E in Hf. cbn [Nat.add] in Hf. split; [|split].
  - apply (parseRows_rejected _ _ _ _ frame'); assumption.
  - exists (i + 2)%nat, (k + 1)%nat, (trimmed col). split; [reflexivity|lia].
  - assert (Hk8 : (k < 8)%nat) by lia. clear - Hk8.
    do 8 (destruct k as [|k]; [cbn; tauto|]). lia.
Qed.

Lemma bad_data_byte_skipped_witness :
  let record := ["18970798"; "5F4"; "false"; "Rx"; "0"; "4";
                 "00"; " 09,"; "1C46"; "zz"; "00"; "00"; "00"; "01"] in
  parseRows 0 [record; sampleRow "5F4" "false" "8"] [] =
    ([RowError 2 (InvalidDataByte 3 "1C46")],
     Returns [mkCANFrame 18970798 0x5F4 false [0; 9; 0x1C; 0x46; 0; 0; 0; 1] 8])
  /\ namesColumn (RowError 2 (InvalidDataByte 3 "1C46"))
  /\ In (columnName 3) ["D1"; "D2"; "D3"; "D4"; "D5"; "D6"; "D7"; "D8"].
Proof.
  intros record.
  assert (Hw : wellFormed record 0 2).
  { intros j Hj. do 2 (destruct j as [|j]; [eexists; eexists; split; reflexivity|]).
    lia. }
  exact (bad_data_byte_skipped record 18970798 0x5F4 4 false 2 "1C46"
           ltac:(cbn; lia) eq_refl ltac:(cbn; lia) Hw eq_refl eq_refl
           0%nat [sampleRow "5F4" "false" "8"] []).
Defined.

(** The frames the loop collects: those it had, then those of the rows. *)
Lemma parseRows_acceptedFrames (rows : list (list string)) :
  forall i frames0 log fs,
    parseRows i rows frames0 = (log, Returns fs) ->
    fs = frames0 ++ acceptedFrames rows.
Proof.
  induction rows as [|record rows IH]; intros i frames0 log fs H.
  - injection H as <- <-. cbn. rewrite app_nil_r. reflexivity.
  - cbn [parseRows] in H. cbn [acceptedFrames flat_map].
    fold (acceptedFrames rows).
    destruct (List.length record <? 12)%nat.
    + destruct (parseRows (S i) rows frames0) as [log' r] eqn:E.
      injection H as <- ->. exact (IH _ _ _ _ E).
    + destruct (parseCANFrame record) as [[frame [err|]]|e]; [| |discriminate].
      * destruct (parseRows (S i) rows frames0) as [log' r] eqn:E.
        injection H as <- ->. exact (IH _ _ _ _ E).
      * apply IH in H. rewrite <- app_assoc in H. exact H.
Qed.

(** What [parseCSV] returns when it returns a trace. *)
Lemma parseCSV_returns_trace (head : list string) (rows : list (list string))
  (log : list warning) (frames : list CANFrame) :
  parseCSV (Records (head :: rows)) = (log, Returns (frames, None)) ->
  csv.sameWidth (head :: rows) = true
  /\ parseRows 0 rows [] = (log, Returns frames).
Proof.
  rewrite parseCSV_records. destruct (csv.sameWidth (head :: rows)); [|discriminate].
  cbn [List.length tl]. destruct (S (List.length rows) <? 2)%nat; [discriminate|].
  destruct (parseRows 0 rows []) as [log' [fs|e]]; [|discriminate].
  cbn. intros [= <- <-]. auto.
Qed.

(** C3. The code breaks the claim: the reader is left at its default
    settings (lines 32-36), which require of every record the number of
    fields of the first one.  A data row of fewer than 12 columns under a
    header of at least 12 therefore ends the whole load with "failed to read
    CSV": no warning gives the row's position, the other rows are not parsed
    and no trace is returned.  The check of line 45 is reached only in a file
    whose records all have the width of the short row, and then no row of
    the file gives a frame: a load that returns a trace from a file with a
    short row returns the empty trace. *)
Theorem short_row_aborts_load (record : list string) :
  (List.length record < 12)%nat ->
  (forall head pre post,
     (12 <= List.length head)%nat ->
     parseCSV (Records (head :: pre ++ record :: post)) =
       ([], Returns ([], Some ReadFailed)))
  /\ (forall head rows log frames,
        In record rows ->
        parseCSV (Records (head :: rows)) = (log, Returns (frames, None)) ->
        frames = []).
Proof.
  intros Hshort. split.
  - intros head pre post Hhead. rewrite parseCSV_records.
    replace (csv.sameWidth (head :: pre ++ record :: post)) with false; [reflexivity|].
    symmetry. cbn [csv.sameWidth]. rewrite forallb_app. cbn [forallb].
    replace (List.length record =? List.length head)%nat with false
      by (symmetry; apply Nat.eqb_neq; lia).
    rewrite andb_false_r. reflexivity.
  - intros head rows log frames Hin H.
    destruct (parseCSV_returns_trace _ _ _ _ H) as [Hsame Hrows].
    rewrite (parseRows_acceptedFrames _ _ _ _ _ Hrows). cbn [app].
    apply sameWidth_uniform in Hsame. rewrite Forall_forall in Hsame.
    assert (Hw : List.length record = List.length head) by exact (Hsame _ Hin).
    assert (Hall : forall rs, (forall r, In r rs -> In r rows) -> acceptedFrames rs = []).
    { induction rs as [|r rs IH]; intros Hsub; [reflexivity|].
      cbn [acceptedFrames flat_map]. fold (acceptedFrames rs).
      replace (List.length r <? 12)%nat with true.
      2:{ symmetry. apply Nat.ltb_lt.
          rewrite (Hsame r (Hsub r (or_introl eq_refl))). lia. }
      apply IH. intros r' Hr'. apply Hsub. right. exact Hr'. }
    apply Hall. auto.
Qed.

Lemma short_row_aborts_load_witness :
  parseCSV (Records [sampleHeader; sampleRow "5F4" "false" "8";
                     ["18970900"; "5F4"; "false"; "Rx"; "0"; "3"; "00"; "09"; "1C"];
                     sampleRow "123" "true" "2"]) =
    ([], Returns ([], Some ReadFailed)).
Proof.
  exact (proj1 (short_row_aborts_load
                  ["18970900"; "5F4"; "false"; "Rx"; "0"; "3"; "00"; "09"; "1C"]
                  ltac:(cbn; lia))
           sampleHeader [sampleRow "5F4" "false" "8"] [sampleRow "123" "true" "2"]
           ltac:(cbn; lia)).
Defined.

(** ** Facts on the scheduler *)

Lemma transmissions_app (e1 e2 : list event) :
  forall acc,
    transmissions acc (e1 ++ e2) =
      transmissions acc e1 ++ transmissions (pending acc e1) e2.
Proof.
  induction e1 as [|e e1 IH]; intros acc; [reflexivity|].
  destruct e; cbn; rewrite IH; reflexivity.
Qed.

Lemma pending_app (e1 e2 : list event) :
  forall acc, pending acc (e1 ++ e2) = pending (pending acc e1) e2.
Proof.
  induction e1 as [|e e1 IH]; intros acc; [reflexivity|].
  destruct e; cbn; rewrite IH; reflexivity.
Qed.

(** A refused frame among the events shows among the transmissions. *)
Lemma refused_in_transmissions (f : can.Frame) (cause : string) (evs : list event) :
  forall acc, In (Sent f (Some cause)) evs ->
    exists t, In t (transmissions acc evs) /\ answer t = Some cause.
Proof.
  induction evs as [|e evs IH]; intros acc Hin; [destruct Hin|].
  destruct Hin as [->|Hin].
  - eexists. split; [left; reflexivity|reflexivity].
  - destruct e; cbn; try (apply IH; exact Hin).
    destruct (IH 0 Hin) as (t & Ht & Ha). exists t. split; [right; exact Ht|exact Ha].
Qed.

(** The wait before the first frame of a pass is zero; before a later frame
    it is the gap between the two timestamps, in microseconds, when the
    64-bit difference is small enough for [time.Duration]. *)
Lemma wait_first (frames : list CANFrame) (frame : CANFrame) :
  wait frames 0 frame = 0.
Proof. reflexivity. Qed.

Lemma wait_gap (frames : list CANFrame) (i : nat) (frame : CANFrame) :
  (0 < i)%nat ->
  let gap := wrap64 (Timestamp frame - Timestamp (nth (i - 1) frames zeroFrame)) in
  gap <= 9223372036854775 ->
  wait frames i frame = gap * Microsecond.
Proof.
  intros Hi gap Hgap. unfold wait, delay.
  replace (i =? 0)%nat with false by (symmetry; apply Nat.eqb_neq; lia).
  fold gap. unfold microseconds, toInt64, Microsecond.
  assert (0 <= gap) by (apply Z.mod_pos_bound; lia).
  rewrite (Z.mod_small (gap + 2 ^ 63)) by lia.
  replace (gap + 2 ^ 63 - 2 ^ 63) with gap by lia.
  rewrite (Z.mod_small (gap * 1000 + 2 ^ 63)) by lia.
  replace (gap * 1000 + 2 ^ 63 - 2 ^ 63) with (gap * 1000) by lia.
  destruct (gap * 1000 >? 0) eqn:E; [reflexivity|]. to_prop. apply Z.ltb_ge in E. lia.
Qed.

Section SchedulerFacts.

Context {B : Type} {T : can.Bus B}.

Lemma planned_nth (frames : list CANFrame) :
  forall rest i k frame,
    nth_error rest k = Some frame ->
    nth_error (planned frames i rest) k =
      Some (mkTransmission (wait frames (i + k) frame) (encode frame) None).
Proof.
  induction rest as [|f rest IH]; intros i [|k] frame H; try discriminate.
  - injection H as ->. cbn. rewrite Nat.add_0_r. reflexivity.
  - cbn. rewrite (IH (S i) k frame H). do 3 f_equal. lia.
Qed.

Lemma planned_accepted (frames : list CANFrame) :
  forall rest i t, In t (planned frames i rest) -> answer t = None.
Proof.
  induction rest as [|f rest IH]; intros i t H; [destruct H|].
  destruct H as [<-|H]; [reflexivity|]. exact (IH _ _ H).
Qed.

Lemma cycles_accepted (frames : list CANFrame) (p : nat) (t : transmission) :
  In t (cycles frames p) -> answer t = None.
Proof.
  unfold cycles. induction p as [|p IH]; cbn; [intros []|].
  rewrite in_app_iff. intros [H|H]; [exact (planned_accepted _ _ _ _ H)|auto].
Qed.

Lemma cycles_S (frames : list CANFrame) (p : nat) :
  cycles frames (S p) = planned frames 0 frames ++ cycles frames p.
Proof. reflexivity. Qed.


Lemma sendFrom_cons (frames : list CANFrame) (first : Z) (i : nat)
  (frame : CANFrame) (rest : list CANFrame) (bus : B) :
  sendFrom frames first i (frame :: rest) bus =
    let d := delay frames i frame in
    let slept := if d >? 0 then [Sleep d] else [] in
    let '(bus', err) := can.Publish bus (encode frame) in
    match err with
    | Some e =>
        (slept ++ [Sent (encode frame) (Some e)], bus',
         Some (SendFailed i (ID frame) e))
    | None =>
        let printed :=
          if (i mod 100 =? 0)%nat
          then [Progress (i + 1) (List.length frames) (ID frame)
                  (microseconds (wrap64 (Timestamp frame - first)))]
          else [] in
        let '(evs, bus'', r) := sendFrom frames first (S i) rest bus' in
        (slept ++ Sent (encode frame) None :: printed ++ evs, bus'', r)
    end.
Proof. reflexivity. Qed.

(** The shape of one pass from index [i]: every frame accepted, or the
    frames before index [i + k] accepted and frame [i + k] refused, the
    refusal being the last event. *)
Lemma sendFrom_shape (frames : list CANFrame) (first : Z) :
  forall rest i bus evs bus' r,
    sendFrom frames first i rest bus = (evs, bus', r) ->
    pending 0 evs = 0 /\
    match r with
    | None => transmissions 0 evs = planned frames i rest
    | Some e =>
        exists k frame cause pre,
          nth_error rest k = Some frame /\
          e = SendFailed (i + k) (ID frame) cause /\
          evs = pre ++ [Sent (encode frame) (Some cause)] /\
          transmissions 0 pre = planned frames i (firstn k rest) /\
          pending 0 pre = wait frames (i + k) frame
    end.
Proof.
  induction rest as [|frame rest IH]; intros i bus evs bus' r H.
  - cbn in H. injection H as <- <- <-. split; reflexivity.
  - rewrite sendFrom_cons in H. cbv zeta in H.
    destruct (can.Publish bus (encode frame)) as [bus1 [cause|]].
    + injection H as <- <- <-. split.
      * destruct (delay frames i frame >? 0); reflexivity.
      * exists 0%nat, frame, cause,
          (if delay frames i frame >? 0 then [Sleep (delay frames i frame)] else []).
        rewrite Nat.add_0_r. unfold wait.
        repeat split; destruct (delay frames i frame >? 0); reflexivity.
    + destruct (sendFrom frames first (S i) rest bus1) as [[evs1 bus2] r1] eqn:E1.
      injection H as <- <- <-.
      destruct (IH _ _ _ _ _ E1) as [Hp Hr].
      set (slept := if delay frames i frame >? 0
                    then [Sleep (delay frames i frame)] else []).
      set (printed := if (i mod 100 =? 0)%nat
                      then [Progress (i + 1) (List.length frames) (ID frame)
                              (microseconds (wrap64 (Timestamp frame - first)))]
                      else []).
      assert (Ht : forall tl,
                 transmissions 0 (slept ++ Sent (encode frame) None :: printed ++ tl)
                 = mkTransmission (wait frames i frame) (encode frame) None
                     :: transmissions 0 tl).
      { intros tl. unfold slept, printed, wait.
        destruct (delay frames i frame >? 0); destruct (i mod 100 =? 0)%nat;
          reflexivity. }
      assert (Hq : forall tl,
                 pending 0 (slept ++ Sent (encode frame) None :: printed ++ tl)
                 = pending 0 tl).
      { intros tl. unfold slept, printed.
        destruct (delay frames i frame >? 0); destruct (i mod 100 =? 0)%nat;
          reflexivity. }
      split; [rewrite Hq; exact Hp|].
      destruct r1 as [e|].
      * destruct Hr as (k & f & cause & pre & Hk & -> & -> & Hpre & Hpend).
        exists (S k), f, cause,
          (slept ++ Sent (encode frame) None :: printed ++ pre).
        replace (i + S k)%nat with (S i + k)%nat by lia.
        repeat split.
        -- exact Hk.
        -- rewrite <- app_assoc. cbn [app]. rewrite <- app_assoc. reflexivity.
        -- rewrite Ht, Hpre. reflexivity.
        -- rewrite Hq. exact Hpend.
      * rewrite Ht, Hr. reflexivity.
Qed.

Lemma passes_S (fuel : nat) (frames : list CANFrame) (first : Z) (loop : bool)
  (bus : B) :
  passes (S fuel) frames first loop bus =
    let '(evs, bus', r) := sendFrom frames first 0 frames bus in
    match r with
    | Some e => (evs, bus', Returned (Some e))
    | None =>
        if negb loop then (evs, bus', Returned None)
        else
          let '(evs', bus'', st) := passes fuel frames first loop bus' in
          (evs ++ Looping :: evs', bus'', st)
    end.
Proof. reflexivity. Qed.

(** The shape of a run of at most [fuel] passes. *)
Lemma passes_shape (frames : list CANFrame) (first : Z) (loop : bool) :
  forall fuel bus evs bus' st,
    passes fuel frames first loop bus = (evs, bus', st) ->
    match st with
    | Running =>
        (fuel = 0%nat \/ loop = true) /\
        transmissions 0 evs = cycles frames fuel /\ pending 0 evs = 0
    | Returned None =>
        loop = false /\ (0 < fuel)%nat /\
        transmissions 0 evs = planned frames 0 frames
    | Returned (Some e) =>
        exists p k frame cause pre,
          nth_error frames k = Some frame /\
          e = SendFailed k (ID frame) cause /\
          evs = pre ++ [Sent (encode frame) (Some cause)] /\
          transmissions 0 pre = cycles frames p ++ planned frames 0 (firstn k frames) /\
          pending 0 pre = wait frames k frame /\
          (p < fuel)%nat /\ (loop = false -> p = 0%nat)
    end.
Proof.
  induction fuel as [|fuel IH]; intros bus evs bus' st H.
  - injection H as <- <- <-. repeat split; auto.
  - rewrite passes_S in H.
    destruct (sendFrom frames first 0 frames bus) as [[evs1 bus1] r1] eqn:E1.
    destruct (sendFrom_shape _ _ _ _ _ _ _ _ E1) as [Hp Hr].
    destruct r1 as [e|].
    + injection H as <- <- <-.
      destruct Hr as (k & frame & cause & pre & Hk & -> & -> & Hpre & Hpend).
      exists 0%nat, k, frame, cause, pre. repeat split; auto; lia.
    + destruct loop; cbn [negb] in H.
      * destruct (passes fuel frames first true bus1) as [[evs2 bus2] st2] eqn:E2.
        injection H as <- <- <-. specialize (IH _ _ _ _ E2).
        assert (Ht : forall tl,
                   transmissions 0 (evs1 ++ Looping :: tl) =
                     planned frames 0 frames ++ transmissions 0 tl).
        { intros tl. rewrite transmissions_app, Hp, Hr. reflexivity. }
        assert (Hq : forall tl, pending 0 (evs1 ++ Looping :: tl) = pending 0 tl).
        { intros tl. rewrite pending_app, Hp. reflexivity. }
        destruct st2 as [[e|]|].
        -- destruct IH as (p & k & frame & cause & pre & Hk & -> & -> & Hpre & Hpend & Hlt & _).
           exists (S p), k, frame, cause, (evs1 ++ Looping :: pre).
           repeat split; auto; try lia; try discriminate.
           ++ rewrite <- app_assoc. reflexivity.
           ++ rewrite Ht, Hpre, cycles_S, app_assoc. reflexivity.
           ++ rewrite Hq. exact Hpend.
        -- destruct IH as [IH _]. discriminate IH.
        -- destruct IH as (_ & IH1 & IH2). repeat split; auto.
           ++ rewrite Ht, IH1, cycles_S. reflexivity.
           ++ rewrite Hq. exact IH2.
      * injection H as <- <- <-. repeat split; auto. lia.
Qed.

(** Once a run has returned, more fuel changes nothing. *)
Lemma passes_returned (frames : list CANFrame) (first : Z) (loop : bool) :
  forall fuel bus evs bus' r,
    passes fuel frames first loop bus = (evs, bus', Returned r) ->
    forall more, passes (fuel + more) frames first loop bus = (evs, bus', Returned r).
Proof.
  induction fuel as [|fuel IH]; intros bus evs bus' r H more; [discriminate|].
  cbn [Nat.add]. rewrite passes_S in *.
  destruct (sendFrom frames first 0 frames bus) as [[evs1 bus1] [e|]]; [exact H|].
  destruct (negb loop); [exact H|].
  destruct (passes fuel frames first loop bus1) as [[evs2 bus2] st2] eqn:E2.
  injection H as <- <- ->. rewrite (IH _ _ _ _ E2 more). reflexivity.
Qed.

Lemma planned_length (frames : list CANFrame) :
  forall rest i, List.length (planned frames i rest) = List.length rest.
Proof.
  induction rest as [|f rest IH]; intros i; cbn; [|rewrite IH]; reflexivity.
Qed.

Lemma planned_nth_frame (frames : list CANFrame) (k : nat) (t : transmission) :
  nth_error (planned frames 0 frames) k = Some t ->
  exists frame,
    nth_error frames k = Some frame /\
    t = mkTransmission (wait frames k frame) (encode frame) None.
Proof.
  intros H. destruct (nth_error frames k) as [frame|] eqn:E.
  - rewrite (planned_nth frames frames 0 k frame E) in H. injection H as <-.
    exists frame. split; reflexivity.
  - apply nth_error_None in E. rewrite <- (planned_length frames frames 0) in E.
    apply nth_error_None in E. congruence.
Qed.

Lemma cycles_length (frames : list CANFrame) (p : nat) :
  List.length (cycles frames p) = (p * List.length frames)%nat.
Proof.
  induction p as [|p IH]; [reflexivity|].
  rewrite cycles_S, length_app, planned_length, IH. reflexivity.
Qed.

(** Transmission [j] of [p] complete passes is frame [j mod n] of the trace. *)
Lemma cycles_nth (frames : list CANFrame) :
  forall p j t,
    nth_error (cycles frames p) j = Some t ->
    nth_error (planned frames 0 frames) (j mod List.length frames) = Some t.
Proof.
  induction p as [|p IH]; intros j t H; [destruct j; discriminate|].
  rewrite cycles_S in H.
  destruct (Nat.lt_ge_cases j (List.length frames)) as [Hj|Hj].
  - rewrite nth_error_app1 in H by (rewrite planned_length; exact Hj).
    rewrite Nat.mod_small by exact Hj. exact H.
  - rewrite nth_error_app2 in H by (rewrite planned_length; exact Hj).
    rewrite planned_length in H. apply IH in H.
    destruct (List.length frames) as [|n] eqn:En.
    + destruct frames; [|discriminate]. destruct (_ mod _)%nat; discriminate.
    + replace (j mod S n)%nat with ((j - S n) mod S n)%nat; [exact H|].
      apply Nat.mod_unique with (q := S ((j - S n) / S n)).
      * apply Nat.mod_upper_bound. lia.
      * pose proof (Nat.div_mod_eq (j - S n) (S n)). lia.
Qed.

(** Transmission [j] of any run hands over frame [j mod n] of the trace,
    after the wait the schedule gives that frame. *)
Lemma run_nth (frames : list CANFrame) (first : Z) (loop : bool) (fuel : nat)
  (bus bus' : B) (evs : list event) (st : status) (j : nat) (t : transmission) :
  passes fuel frames first loop bus = (evs, bus', st) ->
  nth_error (transmissions 0 evs) j = Some t ->
  exists frame,
    nth_error frames (j mod List.length frames) = Some frame /\
    handed t = encode frame /\
    waited t = wait frames (j mod List.length frames) frame.
Proof.
  intros H Hj. apply passes_shape in H.
  assert (Hplan : forall i, nth_error (planned frames 0 frames) i = Some t ->
                            exists frame,
                              nth_error frames i = Some frame /\
                              handed t = encode frame /\
                              waited t = wait frames i frame).
  { intros i Hi. destruct (planned_nth_frame _ _ _ Hi) as (frame & Hf & ->).
    exists frame. repeat split; auto. }
  destruct st as [[e|]|].
  - destruct H as (p & k & frame & cause & pre & Hk & _ & -> & Hpre & Hpend & _).
    rewrite transmissions_app, Hpre, Hpend in Hj. cbn [transmissions] in Hj.
    assert (Hkn : (k < List.length frames)%nat)
      by (apply nth_error_Some; congruence).
    assert (Hlen : List.length (planned frames 0 (firstn k frames)) = k).
    { rewrite planned_length, length_firstn. lia. }
    destruct (Nat.lt_ge_cases j (p * List.length frames)) as [H1|H1].
    + rewrite <- app_assoc, nth_error_app1 in Hj by (rewrite cycles_length; exact H1).
      apply Hplan. exact (cycles_nth _ _ _ _ Hj).
    + rewrite <- app_assoc, nth_error_app2 in Hj by (rewrite cycles_length; exact H1).
      rewrite cycles_length in Hj.
      assert (Hmod : forall r, (r < List.length frames)%nat ->
                               (j - p * List.length frames)%nat = r ->
                               (j mod List.length frames)%nat = r).
      { intros r Hr Hjr. symmetry. apply Nat.mod_unique with (q := p); lia. }
      destruct (Nat.lt_ge_cases (j - p * List.length frames) k) as [H2|H2].
      * rewrite nth_error_app1 in Hj by (rewrite Hlen; exact H2).
        rewrite (Hmod (j - p * List.length frames)%nat) by lia.
        destruct (nth_error frames (j - p * List.length frames)) as [f|] eqn:Ef;
          [|apply nth_error_None in Ef; lia].
        rewrite (planned_nth frames (firstn k frames) 0 _ f) in Hj
          by (rewrite nth_error_firstn;
              replace (_ <? k)%nat with true by (symmetry; apply Nat.ltb_lt; lia);
              exact Ef).
        injection Hj as <-. exists f. repeat split; auto.
      * rewrite nth_error_app2 in Hj by (rewrite Hlen; exact H2).
        rewrite Hlen in Hj.
        destruct (j - p * List.length frames - k)%nat as [|m] eqn:Em;
          [|destruct m; discriminate].
        injection Hj as <-. rewrite (Hmod k) by lia.
        exists frame. repeat split; auto.
  - destruct H as (_ & _ & H). rewrite H in Hj.
    assert (j < List.length frames)%nat.
    { rewrite <- (planned_length frames frames 0). apply nth_error_Some. congruence. }
    rewrite Nat.mod_small by assumption. apply Hplan. exact Hj.
  - destruct H as (_ & H & _). rewrite H in Hj.
    apply Hplan. exact (cycles_nth _ _ _ _ Hj).
Qed.

(** A refused frame is the last event of a run whose earlier transmissions
    were all accepted. *)
Lemma refusal_is_last (pre pre0 post : list event) (f f0 : can.Frame)
  (cause cause0 : string) :
  (forall t, In t (transmissions 0 pre) -> answer t = None) ->
  pre ++ [Sent f (Some cause)] = pre0 ++ Sent f0 (Some cause0) :: post ->
  post = [] /\ pre0 = pre /\ f0 = f /\ cause0 = cause.
Proof.
  intros Hok H. destruct (exists_last (l := Sent f0 (Some cause0) :: post))
    as (front & x & Hx); [discriminate|].
  destruct post as [|y post].
  - apply app_inj_tail in H. destruct H as [-> [= -> ->]]. auto.
  - exfalso. rewrite Hx, app_assoc in H. apply app_inj_tail in H.
    destruct H as [Hpre _].
    assert (Hin : In (Sent f0 (Some cause0)) pre).
    { rewrite Hpre. apply in_or_app. right.
      destruct front as [|z front]; [discriminate Hx|].
      injection Hx as <- _. left. reflexivity. }
    destruct (refused_in_transmissions _ _ _ 0 Hin) as (t & Ht & Ha).
    rewrite (Hok t Ht) in Ha. discriminate.
Qed.

End SchedulerFacts.

(** ** The claims on the scheduler *)

Section SchedulerClaims.

Context {B : Type} {T : can.Bus B}.

(** C7. Replay of an empty trace returns the error "no frames to replay"
    at once, whatever the loop flag and however long it is left to run:
    there is no event at all, so no sleep and no transmission, and the bus
    is untouched. *)
Theorem empty_trace_rejected (fuel : nat) (bus : B) (loop : bool) :
  replayFrames fuel bus [] loop = ([], bus, Returned (Some NoFrames))
  /\ transmissions 0 (fst (fst (replayFrames fuel bus [] loop))) = [].
Proof. split; reflexivity. Qed.

(** C2, amended. In any run, transmission [j] hands over frame
    [i = j mod n] of the trace.  When [i = 0] (the first frame of a pass)
    nothing has been slept before it.  When [i > 0] and the unsigned 64-bit
    difference [gap = timestamp[i] - timestamp[i-1]] is at most
    9223372036854775 (so that [gap] microseconds fit [time.Duration]), the
    scheduler has slept exactly [gap] microseconds before it.  A complete
    pass over timestamps [100, 150, 400] waits [0, 50us, 250us]. *)
Theorem replay_waits :
  (forall frames loop fuel (bus bus' : B) evs st j t,
      replayFrames fuel bus frames loop = (evs, bus', st) ->
      nth_error (transmissions 0 evs) j = Some t ->
      let i := (j mod List.length frames)%nat in
      exists frame,
        nth_error frames i = Some frame /\
        handed t = encode frame /\
        (i = 0%nat -> waited t = 0) /\
        (forall prev,
            (0 < i)%nat -> nth_error frames (i - 1) = Some prev ->
            let gap := wrap64 (Timestamp frame - Timestamp prev) in
            gap <= 9223372036854775 ->
            waited t = gap * Microsecond))
  /\ (forall f1 f2 f3 (bus bus' : B) evs,
        Timestamp f1 = 100 -> Timestamp f2 = 150 -> Timestamp f3 = 400 ->
        replayFrames 1 bus [f1; f2; f3] false = (evs, bus', Returned None) ->
        map waited (transmissions 0 evs) =
          [0; 50 * Microsecond; 250 * Microsecond]).
Proof.
  split.
  - intros frames loop fuel bus bus' evs st j t H Hj i.
    unfold replayFrames in H.
    destruct (List.length frames =? 0)%nat.
    { injection H as <- _ _. destruct j; discriminate. }
    destruct (run_nth _ _ _ _ _ _ _ _ _ _ H Hj) as (frame & Hf & Hh & Hw).
    fold i in Hf, Hw. exists frame. repeat split; auto.
    + intros Hi. rewrite Hw, Hi. apply wait_first.
    + intros prev Hi Hprev gap Hgap. rewrite Hw.
      rewrite (wait_gap frames i frame Hi);
        rewrite (nth_error_nth _ _ zeroFrame Hprev); [reflexivity|exact Hgap].
  - intros f1 f2 f3 bus bus' evs H1 H2 H3 H.
    unfold replayFrames in H. cbn [List.length Nat.eqb] in H.
    apply passes_shape in H. destruct H as (_ & _ & ->).
    cbn [planned map waited]. unfold wait, delay.
    cbn [Nat.eqb Nat.sub nth]. rewrite H1, H2, H3. reflexivity.
Qed.

(** C6. If, in a run, the transport refuses a frame, that refusal is the
    last event of the run: the run has returned, with the error that gives
    the 0-based index [k] of the frame in the trace and its identifier;
    before it, [p] complete passes and the frames before index [k] of the
    current pass were sent and accepted; nothing is sent after it and the
    frame is not sent again, however long the run is left to go on. *)
Theorem transmission_failure_aborts (frames : list CANFrame) (loop : bool)
  (fuel : nat) (bus bus' : B) (evs pre post : list event) (st : status)
  (f : can.Frame) (cause : string) :
  replayFrames fuel bus frames loop = (evs, bus', st) ->
  evs = pre ++ Sent f (Some cause) :: post ->
  post = []
  /\ (exists p k frame,
        nth_error frames k = Some frame /\
        f = encode frame /\
        st = Returned (Some (SendFailed k (ID frame) cause)) /\
        transmissions 0 pre =
          cycles frames p ++ planned frames 0 (firstn k frames))
  /\ (forall more, replayFrames (fuel + more) bus frames loop = (evs, bus', st)).
Proof.
  intros H Hevs. unfold replayFrames in *.
  destruct (List.length frames =? 0)%nat.
  { injection H as <- _ _. destruct pre; discriminate. }
  pose proof (passes_shape _ _ _ _ _ _ _ _ H) as Hs.
  assert (Hin : In (Sent f (Some cause)) evs).
  { rewrite Hevs. apply in_or_app. right. left. reflexivity. }
  destruct (refused_in_transmissions _ _ _ 0 Hin) as (t & Ht & Ha).
  destruct st as [[e|]|].
  - destruct Hs as (p & k & frame & cause' & pre' & Hk & -> & Hev' & Hpre & _).
    assert (Hok : forall t', In t' (transmissions 0 pre') -> answer t' = None).
    { intros t' Ht'. rewrite Hpre in Ht'. apply in_app_or in Ht'.
      destruct Ht' as [Ht'|Ht'];
        [exact (cycles_accepted _ _ _ Ht')|exact (planned_accepted _ _ _ _ Ht')]. }
    rewrite Hevs in Hev'. symmetry in Hev'.
    destruct (refusal_is_last _ _ _ _ _ _ _ Hok Hev') as (-> & -> & -> & ->).
    split; [reflexivity|]. split.
    + exists p, k, frame. repeat split; auto.
    + intros more. apply passes_returned. exact H.
  - destruct Hs as (_ & _ & Hs). rewrite Hs in Ht.
    rewrite (planned_accepted _ _ _ _ Ht) in Ha. discriminate.
  - destruct Hs as (_ & Hs & _). rewrite Hs in Ht.
    rewrite (cycles_accepted _ _ _ Ht) in Ha. discriminate.
Qed.


End SchedulerClaims.

(** ** The claims on the scheduler, on a sample transport *)

Lemma replay_waits_witness :
  let run := replayFrames 2 5%nat sampleTrace true in
  nth_error (transmissions 0 (fst (fst run))) 4 =
    Some (mkTransmission (50 * Microsecond) (encode (frameAt 150)) None)
  /\ waited (mkTransmission (50 * Microsecond) (encode (frameAt 150)) None) =
       wrap64 (150 - 100) * Microsecond.
Proof.
  intros run. split; [reflexivity|].
  destruct (proj1 (@replay_waits nat failAfter) sampleTrace true 2%nat 5%nat
              (snd (fst run)) (fst (fst run)) (snd run) 4%nat
              (mkTransmission (50 * Microsecond) (encode (frameAt 150)) None)
              eq_refl eq_refl)
    as (frame & Hf & _ & _ & Hgap).
  injection Hf as <-.
  exact (Hgap (frameAt 100) ltac:(cbn; lia) eq_refl ltac:(vm_compute; discriminate)).
Defined.

(** C2, as stated, fails: with timestamps [150, 100] the 64-bit difference
    wraps to 2^64 - 50, the duration computed from it is negative, and the
    second frame is sent with no sleep at all. *)
Lemma out_of_order_timestamps_no_wait :
  let run := replayFrames 1 5%nat [frameAt 150; frameAt 100] false in
  snd run = Returned None
  /\ map waited (transmissions 0 (fst (fst run))) = [0; 0]
  /\ delay [frameAt 150; frameAt 100] 1 (frameAt 100) = -50000
  /\ 0 <> (100 - 150) * Microsecond
  /\ 0 <> wrap64 (100 - 150) * Microsecond.
Proof.
  cbv zeta. repeat split; try reflexivity; vm_compute; discriminate.
Qed.

Lemma transmission_failure_aborts_witness :
  let run := replayFrames 3 4%nat sampleTrace true in
  snd run = Returned (Some (SendFailed 1 0x5F4 refusal))
  /\ List.length (transmissions 0 (fst (fst run))) = 5%nat
  /\ replayFrames (3 + 7) 4%nat sampleTrace true = run.
Proof.
  intros run.
  destruct (@transmission_failure_aborts nat failAfter sampleTrace true 3%nat 4%nat
              (snd (fst run)) (fst (fst run)) (removelast (fst (fst run))) []
              (snd run) (encode (frameAt 150)) refusal eq_refl eq_refl)
    as (_ & (p & k & frame & Hk & Hf & Hst & Hpre) & Hmore).
  split; [reflexivity|]. split; [reflexivity|]. exact (Hmore 7%nat).
Defined.


(** ** Further facts on the parser *)

(** When [ParseUint]'s loop returns without an error, its result is the value
    of the numeral. *)
Lemma digits_accepts (base maxVal : Z) (s : string) :
  2 <= base <= 36 ->
  forall n v, 0 <= n ->
    strconv.digits base maxVal (maxUint64 / base + 1) s n = (v, None) ->
    numeral base s n = Some v.
Proof.
  intros Hb. induction s as [|c s IH]; simpl; intros n v Hn H.
  - injection H as <-. reflexivity.
  - destruct (strconv.digit (code c)) as [d|] eqn:Ed; [|discriminate].
    pose proof (digit_range _ _ Ed) as Hd.
    destruct (d >=? base) eqn:Eb; [discriminate|].
    destruct (n >=? maxUint64 / base + 1) eqn:Ec; [discriminate|].
    destruct (_ || _)%bool eqn:E; [discriminate|].
    unfold maxUint64, wrap64 in *. to_prop.
    apply Z.leb_gt in Eb, Ec. apply Z.ltb_ge in H1.
    replace (d <? base) with true by (symmetry; apply Z.ltb_lt; lia).
    assert (Hnb : n * base <= 2 ^ 64 - 1).
    { pose proof (Z.mul_div_le (2 ^ 64 - 1) base ltac:(lia)). nia. }
    rewrite (Z.mod_small (n * base)) in * by nia.
    destruct (Z_lt_le_dec (n * base + d) (2 ^ 64)) as [Hs|Hs].
    + rewrite (Z.mod_small (n * base + d)) in * by nia.
      apply IH; [nia|exact H].
    + exfalso.
      assert ((n * base + d) mod 2 ^ 64 = n * base + d - 2 ^ 64)
        by (symmetry; apply Z.mod_unique with (q := 1); lia).
      lia.
Qed.

(** [ParseUint] accepts exactly the non-empty numerals of the base whose
    value fits the bit size. *)
Lemma ParseUint_accepts_iff (s : string) (base bitSize v : Z) :
  2 <= base <= 36 -> 1 <= bitSize <= 64 ->
  strconv.ParseUint s base bitSize = (v, None) <->
  s <> "" /\ numeral base s 0 = Some v /\ v <= 2 ^ bitSize - 1.
Proof.
  intros Hb Hs. split.
  - intros H. pose proof (ParseUint_bound s base bitSize v ltac:(lia) H) as Hv.
    unfold strconv.ParseUint in H. destruct s as [|c s]; [discriminate|].
    split; [discriminate|]. split; [|lia].
    apply (digits_accepts base (2 ^ bitSize - 1)); [exact Hb|lia|exact H].
  - intros (Hne & Hn & Hv). rewrite (ParseUint_numeral _ _ _ _ Hb Hs Hne Hn).
    replace (v <=? 2 ^ bitSize - 1) with true by (symmetry; apply Z.leb_le; exact Hv).
    reflexivity.
Qed.

(** X1. The timestamp column decides first.  When it is a non-empty decimal
    numeral of value [v <= 2^64 - 1], no row error is "invalid timestamp" and
    an accepted frame carries [v]; otherwise the row is refused with "invalid
    timestamp", whatever the other columns hold, even when they are absent. *)
Theorem timestamp_column (record : list string) (c0 : string) :
  nth_error record 0 = Some c0 ->
  (forall v, c0 <> "" -> numeral 10 c0 0 = Some v -> v <= 2 ^ 64 - 1 ->
     (forall frame e,
         parseCANFrame record <> Returns (frame, Some (InvalidTimestamp e)))
     /\ (forall frame, parseCANFrame record = Returns (frame, None) ->
                       Timestamp frame = v))
  /\ (~ (c0 <> "" /\ exists v, numeral 10 c0 0 = Some v /\ v <= 2 ^ 64 - 1) ->
      exists e, parseCANFrame record = Returns (zeroFrame, Some (InvalidTimestamp e))).
Proof.
  intros Hc0. split.
  - intros v Hne Hn Hv.
    assert (Hp : strconv.ParseUint c0 10 64 = (v, None))
      by (apply ParseUint_accepts_iff; [lia|lia|auto]).
    split.
    + intros frame e. unfold parseCANFrame, index, bind. rewrite Hc0, Hp.
      destruct (nth_error record 1) as [c1|]; [|discriminate].
      destruct (parseID c1) as [id [e1|]]; [discriminate|].
      destruct (nth_error record 2) as [c2|]; [|discriminate].
      destruct (nth_error record 5) as [c5|]; [|discriminate].
      destruct (strconv.ParseUint c5 10 8) as [len [e5|]]; [discriminate|].
      intros H. apply parseData_error in H. destruct H as (d & t & H & _).
      discriminate H.
    + intros frame H.
      destruct (parseCANFrame_accepts _ _ H) as (ts & id & ext & len & Hh).
      destruct (parseCANFrame_frame _ _ _ _ _ _ Hh H) as (-> & _).
      unfold header in Hh. rewrite Hc0, Hp in Hh.
      destruct (nth_error record 1) as [c1|]; [|discriminate].
      destruct (nth_error record 2) as [c2|]; [|discriminate].
      destruct (nth_error record 5) as [c5|]; [|discriminate].
      destruct (parseID c1) as [id' [e1|]]; [discriminate|].
      destruct (strconv.ParseUint c5 10 8) as [len' [e5|]]; [discriminate|].
      injection Hh as -> _ _ _. reflexivity.
  - intros Hbad. unfold parseCANFrame, index, bind. rewrite Hc0.
    destruct (strconv.ParseUint c0 10 64) as [ts [e|]] eqn:Hp.
    + exists e. reflexivity.
    + exfalso. apply Hbad.
      apply ParseUint_accepts_iff in Hp; [|lia|lia].
      destruct Hp as (Hne & Hn & Hv). split; [exact Hne|]. exists ts. auto.
Qed.

Lemma timestamp_column_witness :
  (forall frame,
      parseCANFrame (sampleRow "5F4" "false" "8") = Returns (frame, None) ->
      Timestamp frame = 18970798)
  /\ (exists e,
        parseCANFrame ["+18970798"] = Returns (zeroFrame, Some (InvalidTimestamp e))).
Proof.
  split.
  - exact (proj2 (proj1 (timestamp_column (sampleRow "5F4" "false" "8") "18970798"
                           eq_refl)
                    18970798 ltac:(discriminate) eq_refl ltac:(lia))).
  - apply (proj2 (timestamp_column ["+18970798"] "+18970798" eq_refl)).
    intros (_ & v & Hv & _). discriminate Hv.
Defined.

(** X2. The length column.  In a row whose timestamp and identifier parse
    and whose first six columns are present, the length is accepted exactly
    when the column is a non-empty decimal numeral of value at most 255 (no
    sign, no space, no trimming); otherwise the row is refused with "invalid
    length". *)
Theorem length_column (record : list string) (c0 c1 c2 c5 : string) (ts id : Z) :
  nth_error record 0 = Some c0 -> nth_error record 1 = Some c1 ->
  nth_error record 2 = Some c2 -> nth_error record 5 = Some c5 ->
  strconv.ParseUint c0 10 64 = (ts, None) -> parseID c1 = (id, None) ->
  (exists frame e, parseCANFrame record = Returns (frame, Some (InvalidLength e)))
  <-> ~ (c5 <> "" /\ exists v, numeral 10 c5 0 = Some v /\ v <= 255).
Proof.
  intros H0 H1 H2 H5 Hts Hid.
  unfold parseCANFrame, index, bind. rewrite H0, Hts, H1, Hid, H2, H5.
  destruct (strconv.ParseUint c5 10 8) as [len [e|]] eqn:Hp.
  - split.
    + intros _ (Hne & v & Hn & Hv).
      assert (Hq : strconv.ParseUint c5 10 8 = (v, None))
        by (apply ParseUint_accepts_iff; [lia|lia|]; repeat split; auto; cbn; lia).
      congruence.
    + intros _. eexists. exists e. reflexivity.
  - apply ParseUint_accepts_iff in Hp; [|lia|lia].
    destruct Hp as (Hne & Hn & Hv). split.
    + intros (frame & e & H). apply parseData_error in H.
      destruct H as (d & t & H & _). discriminate H.
    + intros Hbad. exfalso. apply Hbad. split; [exact Hne|].
      exists len. split; [exact Hn|]. cbn in Hv. lia.
Qed.

Lemma length_column_witness :
  exists frame e,
    parseCANFrame (sampleRow "5F4" "false" "256") = Returns (frame, Some (InvalidLength e)).
Proof.
  apply (proj2 (length_column (sampleRow "5F4" "false" "256")
                  "18970798" "5F4" "false" "256" 18970798 0x5F4
                  eq_refl eq_refl eq_refl eq_refl eq_refl eq_refl)).
  intros (_ & v & Hv & Hle). injection Hv as <-. lia.
Defined.

(** [parseCANFrame], column by column. *)
Lemma parseCANFrame_columns (record : list string) :
  parseCANFrame record =
    match nth_error record 0 with
    | None => Panics (IndexOutOfRange 0 (List.length record))
    | Some c0 =>
      match strconv.ParseUint c0 10 64 with
      | (_, Some e) => Returns (zeroFrame, Some (InvalidTimestamp e))
      | (ts, None) =>
        match nth_error record 1 with
        | None => Panics (IndexOutOfRange 1 (List.length record))
        | Some c1 =>
          match parseID c1 with
          | (_, Some e) =>
              Returns (mkCANFrame ts 0 false [] 0, Some (InvalidCANID e))
          | (id, None) =>
            match nth_error record 2 with
            | None => Panics (IndexOutOfRange 2 (List.length record))
            | Some c2 =>
              let ext := String.eqb (strings.ToLower c2) "true" in
              match nth_error record 5 with
              | None => Panics (IndexOutOfRange 5 (List.length record))
              | Some c5 =>
                match strconv.ParseUint c5 10 8 with
                | (_, Some e) =>
                    Returns (mkCANFrame ts (id mod 2 ^ 32) ext [] 0,
                             Some (InvalidLength e))
                | (len, None) =>
                    parseData (Nat.min (Z.to_nat (len mod 2 ^ 8)) 8) 0 record
                      (mkCANFrame ts (id mod 2 ^ 32) ext
                         (repeat 0 (Z.to_nat (len mod 2 ^ 8))) (len mod 2 ^ 8))
                end
              end
            end
          end
        end
      end
    end.
Proof.
  unfold parseCANFrame, index, bind.
  destruct (nth_error record 0) as [c0|]; [|reflexivity].
  destruct (strconv.ParseUint c0 10 64) as [ts [e|]]; [reflexivity|].
  destruct (nth_error record 1) as [c1|]; [|reflexivity].
  destruct (parseID c1) as [id [e|]]; [reflexivity|].
  destruct (nth_error record 2) as [c2|]; [|reflexivity].
  destruct (nth_error record 5) as [c5|]; [|reflexivity].
  destruct (strconv.ParseUint c5 10 8) as [len [e|]]; reflexivity.
Qed.

(** The data loop reads the columns [6 + i .. 6 + i + n - 1] and no other. *)
Lemma parseData_agree (r1 r2 : list string) :
  List.length r1 = List.length r2 ->
  forall n i frame,
    (forall j, (i <= j < i + n)%nat -> nth_error r1 (6 + j) = nth_error r2 (6 + j)) ->
    parseData n i r1 frame = parseData n i r2 frame.
Proof.
  intros Hlen. induction n as [|n IH]; intros i frame H; [reflexivity|].
  cbn [parseData]. unfold index, bind. rewrite <- (H i) by lia. rewrite <- Hlen.
  destruct (nth_error r1 (6 + i)) as [col|]; [|reflexivity].
  destruct (hex.DecodeString _) as [bs [e|]]; [reflexivity|].
  destruct bs as [|b0 [|? ?]]; try reflexivity.
  apply IH. intros j Hj. apply H. lia.
Qed.

(** X3. The direction and bus columns (3 and 4) and every column after [D8]
    are never read: two rows of the same number of columns that agree on
    columns 0, 1, 2, 5 and 6..13 parse to the same result, frame, error or
    panic. *)
Theorem ignored_columns (r1 r2 : list string) :
  List.length r1 = List.length r2 ->
  (forall j, j <> 3%nat -> j <> 4%nat -> (j < 14)%nat ->
             nth_error r1 j = nth_error r2 j) ->
  parseCANFrame r1 = parseCANFrame r2.
Proof.
  intros Hlen H. rewrite !parseCANFrame_columns.
  rewrite <- (H 0%nat), <- (H 1%nat), <- (H 2%nat), <- (H 5%nat), <- Hlen by lia.
  destruct (nth_error r1 0) as [c0|]; [|reflexivity].
  destruct (strconv.ParseUint c0 10 64) as [ts [e|]]; [reflexivity|].
  destruct (nth_error r1 1) as [c1|]; [|reflexivity].
  destruct (parseID c1) as [id [e|]]; [reflexivity|].
  destruct (nth_error r1 2) as [c2|]; [|reflexivity].
  destruct (nth_error r1 5) as [c5|]; [|reflexivity].
  destruct (strconv.ParseUint c5 10 8) as [len [e|]]; [reflexivity|].
  cbv zeta. apply parseData_agree; [exact Hlen|].
  intros j Hj. apply H; lia.
Qed.

Lemma ignored_columns_witness :
  parseCANFrame ["18970798"; "5F4"; "false"; "Tx"; "7"; "8";
                 "00"; "09"; "1C"; "46"; "00"; "00"; "00"; "01"; "extra"] =
  parseCANFrame (sampleRow "5F4" "false" "8" ++ [""]).
Proof.
  apply ignored_columns; [reflexivity|].
  intros j H3 H4 Hj.
  do 14 (destruct j as [|j]; [first [reflexivity | congruence]|]). lia.
Defined.

Lemma nth_error_store_other {A : Type} (s : list A) :
  forall i j v, i <> j -> nth_error (store s i v) j = nth_error s j.
Proof.
  induction s as [|h t IH]; intros [|i] [|j] v H; cbn; try reflexivity;
    try congruence.
  apply IH. congruence.
Qed.

Lemma nth_error_store_same {A : Type} (s : list A) :
  forall i v a, nth_error s i = Some a -> nth_error (store s i v) i = Some v.
Proof.
  induction s as [|h t IH]; intros [|i] v a H; cbn in *; try discriminate;
    [reflexivity|eauto].
Qed.

Lemma parseData_setExtended (record : list string) (b : bool) :
  forall n i frame,
    parseData n i record (setExtended frame b) =
      match parseData n i record frame with
      | Returns (frame', err) => Returns (setExtended frame' b, err)
      | Panics e => Panics e
      end.
Proof.
  induction n as [|n IH]; intros i frame; [reflexivity|].
  cbn [parseData]. unfold index, bind.
  destruct (nth_error record (6 + i)) as [col|]; [|reflexivity].
  destruct (hex.DecodeString _) as [bs [e|]]; [reflexivity|].
  destruct bs as [|b0 [|? ?]]; try reflexivity.
  rewrite <- IH. reflexivity.
Qed.

Lemma lowerByte_t (c : ascii) :
  strings.lowerByte c = "t"%char -> c = "t"%char \/ c = "T"%char.
Proof.
  destruct c as [[] [] [] [] [] [] [] []]; vm_compute; intros H;
    first [discriminate H | left; reflexivity | right; reflexivity].
Qed.

Lemma lowerByte_r (c : ascii) :
  strings.lowerByte c = "r"%char -> c = "r"%char \/ c = "R"%char.
Proof.
  destruct c as [[] [] [] [] [] [] [] []]; vm_compute; intros H;
    first [discriminate H | left; reflexivity | right; reflexivity].
Qed.

Lemma lowerByte_u (c : ascii) :
  strings.lowerByte c = "u"%char -> c = "u"%char \/ c = "U"%char.
Proof.
  destruct c as [[] [] [] [] [] [] [] []]; vm_compute; intros H;
    first [discriminate H | left; reflexivity | right; reflexivity].
Qed.

Lemma lowerByte_e (c : ascii) :
  strings.lowerByte c = "e"%char -> c = "e"%char \/ c = "E"%char.
Proof.
  destruct c as [[] [] [] [] [] [] [] []]; vm_compute; intros H;
    first [discriminate H | left; reflexivity | right; reflexivity].
Qed.

(** X4. The extended flag is lenient.  It is set exactly when the column is
    one of the 16 spellings of "true" in upper and lower case, and the column
    never makes a row fail: with any other text in column 2, an accepted row
    is still accepted, with the same frame up to the flag, a refused row is
    refused for the same reason and a panic stays the same panic. *)
Theorem extended_flag (record : list string) (c2 c2' : string) :
  nth_error record 2 = Some c2 ->
  (String.eqb (strings.ToLower c2) "true" = true <->
   exists a b c d,
     c2 = String a (String b (String c (String d "")))
     /\ (a = "t" \/ a = "T")%char /\ (b = "r" \/ b = "R")%char
     /\ (c = "u" \/ c = "U")%char /\ (d = "e" \/ d = "E")%char)
  /\ (forall frame,
        parseCANFrame record = Returns (frame, None) ->
        Extended frame = String.eqb (strings.ToLower c2) "true" /\
        parseCANFrame (store record 2 c2') =
          Returns (setExtended frame (String.eqb (strings.ToLower c2') "true"), None))
  /\ (forall frame err,
        parseCANFrame record = Returns (frame, Some err) ->
        exists frame', parseCANFrame (store record 2 c2') = Returns (frame', Some err))
  /\ (forall e,
        parseCANFrame record = Panics e ->
        parseCANFrame (store record 2 c2') = Panics e).
Proof.
  intros H2. split.
  { split.
    - intros H. apply String.eqb_eq in H.
      destruct c2 as [|a [|b [|c [|d [|x s]]]]]; try discriminate H.
      cbn in H. injection H as Ha Hb Hc Hd.
      exists a, b, c, d. split; [reflexivity|].
      auto using lowerByte_t, lowerByte_r, lowerByte_u, lowerByte_e.
    - intros (a & b & c & d & -> & [-> | ->] & [-> | ->] & [-> | ->] & [-> | ->]);
        reflexivity. }
  assert (Hlen : List.length (store record 2 c2') = List.length record)
    by apply store_length.
  assert (Hdata : forall n i frame,
             parseData n i (store record 2 c2') frame = parseData n i record frame).
  { intros n i frame. apply parseData_agree; [exact Hlen|].
    intros j _. apply nth_error_store_other. lia. }
  assert (E : parseCANFrame (store record 2 c2') =
              match parseCANFrame record with
              | Returns (frame, None) =>
                  Returns (setExtended frame (String.eqb (strings.ToLower c2') "true"),
                           None)
              | Returns (frame, Some err) =>
                  match err with
                  | InvalidTimestamp _ | InvalidCANID _ => Returns (frame, Some err)
                  | _ => Returns (setExtended frame
                                    (String.eqb (strings.ToLower c2') "true"), Some err)
                  end
              | Panics e => Panics e
              end
              /\ forall frame, parseCANFrame record = Returns (frame, None) ->
                               Extended frame = String.eqb (strings.ToLower c2) "true").
  { rewrite !parseCANFrame_columns. cbv zeta.
    rewrite (nth_error_store_other record 2 0), (nth_error_store_other record 2 1),
      (nth_error_store_other record 2 5) by lia.
    rewrite (nth_error_store_same _ _ _ _ H2), Hlen, H2.
    destruct (nth_error record 0) as [c0|]; [|split; [reflexivity|discriminate]].
    destruct (strconv.ParseUint c0 10 64) as [ts [e|]];
      [split; [reflexivity|discriminate]|].
    destruct (nth_error record 1) as [c1|]; [|split; [reflexivity|discriminate]].
    destruct (parseID c1) as [id [e|]]; [split; [reflexivity|discriminate]|].
    destruct (nth_error record 5) as [c5|]; [|split; [reflexivity|discriminate]].
    destruct (strconv.ParseUint c5 10 8) as [len [e|]];
      [split; [reflexivity|discriminate]|].
    rewrite Hdata.
    set (f := mkCANFrame ts (id mod 2 ^ 32) (String.eqb (strings.ToLower c2) "true")
                (repeat 0 (Z.to_nat (len mod 2 ^ 8))) (len mod 2 ^ 8)).
    change (mkCANFrame ts (id mod 2 ^ 32) (String.eqb (strings.ToLower c2') "true")
              (repeat 0 (Z.to_nat (len mod 2 ^ 8))) (len mod 2 ^ 8))
      with (setExtended f (String.eqb (strings.ToLower c2') "true")).
    rewrite parseData_setExtended. split.
    - destruct (parseData _ 0 record f) as [[frame [err|]]|e] eqn:Ep; try reflexivity.
      apply parseData_error in Ep. destruct Ep as (d & t & -> & _). reflexivity.
    - intros frame Hf. apply parseData_success in Hf;
        [|cbn; rewrite repeat_length; lia].
      destruct Hf as (_ & _ & -> & _). reflexivity. }
  destruct E as [E Hext]. split; [|split].
  - intros frame H. split; [exact (Hext _ H)|]. rewrite E, H. reflexivity.
  - intros frame err H. rewrite E, H. destruct err; eauto.
  - intros e H. rewrite E, H. reflexivity.
Qed.

Lemma extended_flag_witness :
  parseCANFrame (sampleRow "5F4" "TrUe" "8") =
    Returns (mkCANFrame 18970798 0x5F4 true [0; 9; 0x1C; 0x46; 0; 0; 0; 1] 8, None)
  /\ parseCANFrame (sampleRow "5F4" "yes" "8") =
    Returns (mkCANFrame 18970798 0x5F4 false [0; 9; 0x1C; 0x46; 0; 0; 0; 1] 8, None).
Proof.
  destruct (extended_flag (sampleRow "5F4" "false" "8") "false" "TrUe" eq_refl)
    as (_ & H1 & _).
  destruct (extended_flag (sampleRow "5F4" "false" "8") "false" "yes" eq_refl)
    as (_ & H2 & _).
  split; [exact (proj2 (H1 _ eq_refl))|exact (proj2 (H2 _ eq_refl))].
Defined.

Lemma reverseHexTable_range (c : Z) :
  0 <= c -> 0 <= hex.reverseHexTable c <= 15 \/ hex.reverseHexTable c = 255.
Proof.
  intros Hc. unfold hex.reverseHexTable.
  destruct ((48 <=? c) && (c <=? 57))%bool eqn:E1; [to_prop; lia|].
  destruct ((97 <=? c) && (c <=? 102))%bool eqn:E2; [to_prop; lia|].
  destruct ((65 <=? c) && (c <=? 70))%bool eqn:E3; [to_prop; lia|].
  right. reflexivity.
Qed.

Lemma code_nonneg (c : ascii) : 0 <= code c.
Proof. unfold code. lia. Qed.

Lemma nibbles (a b : Z) :
  0 <= a <= 15 -> 0 <= b <= 15 -> Z.lor (Z.shiftl a 4) b = 16 * a + b.
Proof.
  intros Ha Hb.
  assert (Ha' : a = 0 \/ a = 1 \/ a = 2 \/ a = 3 \/ a = 4 \/ a = 5 \/ a = 6 \/ a = 7 \/
                a = 8 \/ a = 9 \/ a = 10 \/ a = 11 \/ a = 12 \/ a = 13 \/ a = 14 \/
                a = 15) by lia.
  assert (Hb' : b = 0 \/ b = 1 \/ b = 2 \/ b = 3 \/ b = 4 \/ b = 5 \/ b = 6 \/ b = 7 \/
                b = 8 \/ b = 9 \/ b = 10 \/ b = 11 \/ b = 12 \/ b = 13 \/ b = 14 \/
                b = 15) by lia.
  clear Ha Hb.
  repeat (destruct Ha' as [->|Ha']); try subst a;
    repeat (destruct Hb' as [->|Hb']); try subst b; reflexivity.
Qed.

Lemma DecodeString_nothing (s : string) :
  hex.DecodeString s = ([], None) -> s = "".
Proof.
  destruct s as [|p [|q rest]]; [reflexivity| |]; cbn.
  - destruct (_ >? 15); discriminate.
  - destruct (_ >? 15); [discriminate|].
    destruct (_ >? 15); [discriminate|].
    destruct (hex.DecodeString rest). discriminate.
Qed.

(** What [oneByte] returns, digit by digit. *)
Lemma oneByte_digits (col : string) (b : Z) :
  oneByte col = Some b ->
  exists h l,
    trimmed col = String h (String l "")
    /\ 0 <= hex.reverseHexTable (code h) <= 15
    /\ 0 <= hex.reverseHexTable (code l) <= 15
    /\ b = 16 * hex.reverseHexTable (code h) + hex.reverseHexTable (code l).
Proof.
  unfold oneByte.
  destruct (trimmed col) as [|h [|l rest]] eqn:Et; cbn.
  - discriminate.
  - destruct (_ >? 15); discriminate.
  - destruct (hex.reverseHexTable (code h) >? 15) eqn:Eh; [discriminate|].
    destruct (hex.reverseHexTable (code l) >? 15) eqn:El; [discriminate|].
    destruct (hex.DecodeString rest) as [bs err] eqn:Er.
    destruct err as [e|]; [destruct bs; discriminate|].
    destruct bs as [|? ?]; [|discriminate].
    apply DecodeString_nothing in Er. subst rest. intros [= <-].
    to_prop. apply Z.ltb_ge in Eh, El.
    destruct (reverseHexTable_range _ (code_nonneg h)) as [Hh|Hh]; [|lia].
    destruct (reverseHexTable_range _ (code_nonneg l)) as [Hl|Hl]; [|lia].
    exists h, l. repeat split; try lia. apply nibbles; assumption.
Qed.

Lemma oneByte_range (col : string) (b : Z) :
  oneByte col = Some b -> 0 <= b < 256.
Proof.
  intros H. destruct (oneByte_digits _ _ H) as (h & l & _ & Hh & Hl & ->). lia.
Qed.

(** X5. A data column is one byte exactly when, whitespace around it and one
    trailing comma removed, it is two hex digits, in either case; the byte is
    then 16 times the first digit plus the second. *)
Theorem data_column_byte (col : string) (b : Z) :
  oneByte col = Some b <->
  exists h l,
    trimmed col = String h (String l "")
    /\ hex.reverseHexTable (code h) <= 15 /\ hex.reverseHexTable (code l) <= 15
    /\ b = 16 * hex.reverseHexTable (code h) + hex.reverseHexTable (code l).
Proof.
  split.
  - intros H. destruct (oneByte_digits _ _ H) as (h & l & Ht & Hh & Hl & Hb).
    exists h, l. repeat split; auto; lia.
  - unfold oneByte. intros (h & l & -> & Hh & Hl & ->). cbn [hex.DecodeString].
    replace (hex.reverseHexTable (code h) >? 15) with false
      by (symmetry; rewrite Z.gtb_ltb; apply Z.ltb_ge; exact Hh).
    replace (hex.reverseHexTable (code l) >? 15) with false
      by (symmetry; rewrite Z.gtb_ltb; apply Z.ltb_ge; exact Hl).
    destruct (reverseHexTable_range _ (code_nonneg h)) as [Hh'|Hh']; [|lia].
    destruct (reverseHexTable_range _ (code_nonneg l)) as [Hl'|Hl']; [|lia].
    rewrite nibbles by assumption. reflexivity.
Qed.

Lemma data_column_byte_witness : oneByte "  1c," = Some 28.
Proof.
  apply (proj2 (data_column_byte "  1c," 28)).
  exists "1"%char, "c"%char. repeat split; vm_compute; congruence.
Defined.

Lemma store_Forall {A : Type} (P : A -> Prop) (s : list A) :
  forall i v, Forall P s -> P v -> Forall P (store s i v).
Proof.
  induction s as [|h t IH]; intros [|i] v Hs Hv; cbn; auto;
    inversion Hs; subst; constructor; auto.
Qed.

Lemma repeat_zero_bytes (n : nat) : Forall (fun b => 0 <= b < 256) (repeat 0 n).
Proof. induction n as [|n IH]; cbn; constructor; [lia|exact IH]. Qed.

Lemma parseData_bytes (record : list string) :
  forall n i frame frame' err,
    Forall (fun b => 0 <= b < 256) (Data frame) ->
    parseData n i record frame = Returns (frame', err) ->
    Forall (fun b => 0 <= b < 256) (Data frame').
Proof.
  induction n as [|n IH]; intros i frame frame' err Hf H.
  - injection H as <- _. exact Hf.
  - destruct (nth_error record (6 + i)) as [col|] eqn:Hc;
      [|rewrite parseData_missing in H by assumption; discriminate].
    destruct (oneByte col) as [b|] eqn:Hb.
    + rewrite (parseData_ok _ _ _ _ _ _ Hc Hb) in H.
      apply IH in H; [exact H|]. cbn.
      apply store_Forall; [exact Hf|exact (oneByte_range _ _ Hb)].
    + rewrite (parseData_bad _ _ _ _ col) in H by assumption.
      injection H as <- _. exact Hf.
Qed.

(** X6. Every frame the parser accepts is within the ranges of its Go types:
    the timestamp is below 2^64, the identifier below 2^32, the length at
    most 255, and each byte of the payload is below 256. *)
Theorem accepted_frame_ranges (record : list string) (frame : CANFrame) :
  parseCANFrame record = Returns (frame, None) ->
  0 <= Timestamp frame < 2 ^ 64
  /\ 0 <= ID frame < 2 ^ 32
  /\ 0 <= Length frame <= 255
  /\ Forall (fun b => 0 <= b < 256) (Data frame).
Proof.
  intros H. pose proof H as H'. rewrite parseCANFrame_columns in H'.
  destruct (nth_error record 0) as [c0|]; [|discriminate].
  destruct (strconv.ParseUint c0 10 64) as [ts [e|]] eqn:Ets; [discriminate|].
  destruct (nth_error record 1) as [c1|]; [|discriminate].
  destruct (parseID c1) as [id [e|]] eqn:Eid; [discriminate|].
  destruct (nth_error record 2) as [c2|]; [|discriminate].
  destruct (nth_error record 5) as [c5|]; [|discriminate].
  destruct (strconv.ParseUint c5 10 8) as [len [e|]] eqn:Elen; [discriminate|].
  cbv zeta in H'.
  pose proof (ParseUint_bound c0 10 64 ts ltac:(lia) Ets) as Hts.
  pose proof (parseID_bound _ _ Eid) as Hid.
  pose proof (ParseUint_bound c5 10 8 len ltac:(lia) Elen) as Hlen.
  change (2 ^ 8) with 256 in *.
  rewrite (Z.mod_small id), (Z.mod_small len) in H' by lia.
  assert (Hd : Forall (fun b => 0 <= b < 256) (Data frame)).
  { refine (parseData_bytes _ _ _ _ _ _ _ H'). cbn. apply repeat_zero_bytes. }
  apply parseData_success in H'; [|cbn; rewrite repeat_length; lia].
  cbn in H'. destruct H' as (-> & -> & _ & -> & _).
  repeat split; try lia. exact Hd.
Qed.

Lemma accepted_frame_ranges_witness :
  Forall (fun b => 0 <= b < 256) [0; 9; 0x1C; 0x46; 0; 0; 0; 1].
Proof.
  exact (proj2 (proj2 (proj2
           (accepted_frame_ranges (sampleRow "5F4" "false" "8")
              (mkCANFrame 18970798 0x5F4 false [0; 9; 0x1C; 0x46; 0; 0; 0; 1] 8)
              eq_refl)))).
Defined.

Lemma parseData_returns (record : list string) :
  forall n i frame,
    (6 + i + n <= List.length record)%nat ->
    exists frame' err, parseData n i record frame = Returns (frame', err).
Proof.
  induction n as [|n IH]; intros i frame Hlen.
  - eexists. eexists. reflexivity.
  - destruct (nth_error_present record (6 + i) ltac:(lia)) as [col Hc].
    destruct (oneByte col) as [b|] eqn:Hb.
    + rewrite (parseData_ok _ _ _ _ _ _ Hc Hb). apply IH. lia.
    + rewrite (parseData_bad _ _ _ _ col) by assumption. eexists. eexists. reflexivity.
Qed.

Lemma parseCANFrame_returns (record : list string) :
  (14 <= List.length record)%nat ->
  exists frame err, parseCANFrame record = Returns (frame, err).
Proof.
  intros Hlen. rewrite parseCANFrame_columns.
  destruct (nth_error_present record 0 ltac:(lia)) as [c0 ->].
  destruct (strconv.ParseUint c0 10 64) as [ts [e|]]; [eauto|].
  destruct (nth_error_present record 1 ltac:(lia)) as [c1 ->].
  destruct (parseID c1) as [id [e|]]; [eauto|].
  destruct (nth_error_present record 2 ltac:(lia)) as [c2 ->].
  destruct (nth_error_present record 5 ltac:(lia)) as [c5 ->].
  destruct (strconv.ParseUint c5 10 8) as [len [e|]]; [cbv zeta; eauto|].
  cbv zeta. apply parseData_returns. lia.
Qed.

(** X7. The loader cannot panic on a file in which every data row has fewer
    than 12 or at least 14 columns: it returns, with a trace or with an
    error, whatever the columns hold. *)
Theorem wide_rows_never_panic (file : csvSource) :
  (forall records, file = Records records ->
     Forall (fun record => (List.length record < 12 \/ 14 <= List.length record)%nat)
            (tl records)) ->
  exists frames err, snd (parseCSV file) = Returns (frames, err).
Proof.
  intros H. destruct file as [| |records]; [cbn; eauto|cbn; eauto|].
  specialize (H records eq_refl). rewrite parseCSV_records.
  destruct (csv.sameWidth records); [|cbn; eauto].
  destruct (List.length records <? 2)%nat; [cbn; eauto|].
  assert (Hrows : forall rows i frames,
             Forall (fun record =>
                       (List.length record < 12 \/ 14 <= List.length record)%nat) rows ->
             exists fs, snd (parseRows i rows frames) = Returns fs).
  { induction rows as [|record rows IH]; intros i frames Hf; [cbn; eauto|].
    inversion Hf as [|? ? Hr Hrest]; subst.
    destruct (Nat.lt_ge_cases (List.length record) 12) as [Hs|Hs].
    - rewrite parseRows_short by exact Hs. cbn [snd]. apply IH. exact Hrest.
    - destruct (parseCANFrame_returns record ltac:(lia)) as (frame & [err|] & Hp).
      + rewrite (parseRows_rejected _ _ _ _ _ _ Hs Hp). cbn [snd]. apply IH. exact Hrest.
      + rewrite (parseRows_accepted _ _ _ _ _ Hs Hp). apply IH. exact Hrest. }
  destruct (Hrows (tl records) 0%nat [] H) as [fs Hfs].
  cbn [snd]. rewrite Hfs. cbn. eauto.
Qed.

Lemma wide_rows_never_panic_witness :
  exists frames err,
    snd (parseCSV (Records [sampleHeader; sampleRow "xyz" "" "300";
                            sampleRow "5F4" "true" "8"])) = Returns (frames, err).
Proof.
  apply wide_rows_never_panic. intros records [= <-].
  repeat constructor; cbn; lia.
Defined.

(** X9. Every data row is either loaded or reported, exactly once: when the
    load returns a trace, the frames in it and the warnings in the log are
    together as many as the data rows of the file. *)
Theorem every_row_accounted (head : list string) (rows : list (list string))
  (log : list warning) (frames : list CANFrame) :
  parseCSV (Records (head :: rows)) = (log, Returns (frames, None)) ->
  (List.length frames + List.length log = List.length rows)%nat.
Proof.
  assert (Hrows : forall rows i frames0 log fs,
             parseRows i rows frames0 = (log, Returns fs) ->
             (List.length fs + List.length log =
                List.length frames0 + List.length rows)%nat).
  { clear. induction rows as [|record rows IH]; intros i frames0 log fs H.
    - injection H as <- <-. cbn. lia.
    - cbn [parseRows] in H. destruct (List.length record <? 12)%nat.
      + destruct (parseRows (S i) rows frames0) as [log' r] eqn:E.
        injection H as <- ->. apply IH in E. cbn. lia.
      + destruct (parseCANFrame record) as [[frame [err|]]|e]; [| |discriminate].
        * destruct (parseRows (S i) rows frames0) as [log' r] eqn:E.
          injection H as <- ->. apply IH in E. cbn. lia.
        * apply IH in H. rewrite length_app in H. cbn in *. lia. }
  intros H. destruct (parseCSV_returns_trace _ _ _ _ H) as [_ E].
  apply Hrows in E. cbn in E. lia.
Qed.

Lemma every_row_accounted_witness :
  Nat.add
    (List.length [mkCANFrame 18970798 0x5F4 false [0; 9] 2])
    (List.length [RowError 3 (InvalidCANID strconv.ErrSyntax);
                  RowError 4 (InvalidDataByte 1 "0")])
  = 3%nat.
Proof.
  exact (every_row_accounted sampleHeader
           [sampleRow "5F4" "false" "2"; sampleRow "5G4" "false" "2";
            ["18970900"; "5F4"; "false"; "Rx"; "0"; "1";
             "0"; "09"; "1C"; "46"; "00"; "00"; "00"; "01"]]
           _ _ eq_refl).
Defined.

(** X10. The trace is the frames of the accepted rows in the order of the
    file: nothing is reordered, dropped or repeated, and what a row
    contributes does not depend on the rows around it. *)
Theorem trace_in_file_order (head : list string) (rows : list (list string))
  (log : list warning) (frames : list CANFrame) :
  parseCSV (Records (head :: rows)) = (log, Returns (frames, None)) ->
  frames = acceptedFrames rows.
Proof.
  intros H. destruct (parseCSV_returns_trace _ _ _ _ H) as [_ E].
  exact (parseRows_acceptedFrames _ _ _ _ _ E).
Qed.

Lemma trace_in_file_order_witness :
  [mkCANFrame 18970798 0x5F4 false [0; 9] 2; mkCANFrame 18970798 0x123 true [0] 1] =
  acceptedFrames [sampleRow "5F4" "false" "2"; sampleRow "5G4" "false" "2";
                  sampleRow "123" "true" "1"].
Proof.
  exact (trace_in_file_order sampleHeader
           [sampleRow "5F4" "false" "2"; sampleRow "5G4" "false" "2";
            sampleRow "123" "true" "1"]
           _ _ eq_refl).
Defined.

(** X11. Every warning is justified and carries the right row number: the
    warning with row number [k + 2] is about the data row at index [k], which
    has fewer than 12 columns or is the row [parseCANFrame] refused with the
    error reported; the warnings come in increasing order of row number, one
    at most per row. *)
Theorem warnings_justified (head : list string) (rows : list (list string))
  (log : list warning) (r : outcome (list CANFrame * option error)) :
  parseCSV (Records (head :: rows)) = (log, r) ->
  (forall w, In w log ->
     exists k record,
       nth_error rows k = Some record /\ rowOf w = (k + 2)%nat /\
       ((w = InsufficientColumns (k + 2) /\ (List.length record < 12)%nat)
        \/ (exists frame err,
              w = RowError (k + 2) err /\ (12 <= List.length record)%nat /\
              parseCANFrame record = Returns (frame, Some err))))
  /\ StronglySorted lt (map rowOf log).
Proof.
  assert (Hrows : forall rows i frames0 log r,
             parseRows i rows frames0 = (log, r) ->
             forall w, In w log ->
               exists k record,
                 nth_error rows k = Some record /\ rowOf w = (i + k + 2)%nat /\
                 ((w = InsufficientColumns (i + k + 2) /\ (List.length record < 12)%nat)
                  \/ (exists frame err,
                        w = RowError (i + k + 2) err /\
                        (12 <= List.length record)%nat /\
                        parseCANFrame record = Returns (frame, Some err)))).
  { clear. induction rows as [|record rows IH]; intros i frames0 log r H w Hw.
    - injection H as <- _. destruct Hw.
    - assert (Hnext : forall frames1 log' r',
                 parseRows (S i) rows frames1 = (log', r') -> In w log' ->
                 exists k record0,
                   nth_error (record :: rows) k = Some record0 /\
                   rowOf w = (i + k + 2)%nat /\
                   ((w = InsufficientColumns (i + k + 2) /\
                     (List.length record0 < 12)%nat)
                    \/ (exists frame err,
                          w = RowError (i + k + 2) err /\
                          (12 <= List.length record0)%nat /\
                          parseCANFrame record0 = Returns (frame, Some err)))).
      { intros frames1 log' r' E Hin.
        destruct (IH _ _ _ _ E w Hin) as (k & record0 & Hk & Hrow & Hcase).
        exists (S k), record0.
        replace (i + S k + 2)%nat with (S i + k + 2)%nat by lia. auto. }
      cbn [parseRows] in H.
      destruct (List.length record <? 12)%nat eqn:El.
      + destruct (parseRows (S i) rows frames0) as [log' r'] eqn:E.
        injection H as <- _. destruct Hw as [<-|Hw]; [|exact (Hnext _ _ _ E Hw)].
        exists 0%nat, record. rewrite Nat.add_0_r. apply Nat.ltb_lt in El.
        split; [reflexivity|]. split; [reflexivity|]. left. auto.
      + apply Nat.ltb_ge in El.
        destruct (parseCANFrame record) as [[frame [err|]]|e] eqn:Ep.
        * destruct (parseRows (S i) rows frames0) as [log' r'] eqn:E.
          injection H as <- _. destruct Hw as [<-|Hw]; [|exact (Hnext _ _ _ E Hw)].
          exists 0%nat, record. rewrite Nat.add_0_r.
          split; [reflexivity|]. split; [reflexivity|]. right.
          exists frame, err. auto.
        * exact (Hnext _ _ _ H Hw).
        * injection H as <- _. destruct Hw. }
  assert (Hsorted : forall rows i frames0 log r,
             parseRows i rows frames0 = (log, r) ->
             StronglySorted lt (map rowOf log)).
  { clear - Hrows. induction rows as [|record rows IH]; intros i frames0 log r H.
    - injection H as <- _. constructor.
    - assert (Hcons : forall frames1 log' r' w,
                 parseRows (S i) rows frames1 = (log', r') -> rowOf w = (i + 2)%nat ->
                 StronglySorted lt (map rowOf (w :: log'))).
      { intros frames1 log' r' w E Hw. cbn [map]. constructor; [exact (IH _ _ _ _ E)|].
        apply Forall_forall. intros n Hn. apply in_map_iff in Hn.
        destruct Hn as (w' & <- & Hin).
        destruct (Hrows _ _ _ _ _ E w' Hin) as (k & _ & _ & Hrow & _). lia. }
      cbn [parseRows] in H.
      destruct (List.length record <? 12)%nat.
      + destruct (parseRows (S i) rows frames0) as [log' r'] eqn:E.
        injection H as <- _.
        exact (Hcons _ _ _ (InsufficientColumns (i + 2)) E eq_refl).
      + destruct (parseCANFrame record) as [[frame [err|]]|e].
        * destruct (parseRows (S i) rows frames0) as [log' r'] eqn:E.
          injection H as <- _.
          exact (Hcons _ _ _ (RowError (i + 2) err) E eq_refl).
        * exact (IH _ _ _ _ H).
        * injection H as <- _. constructor. }
  rewrite parseCSV_records. destruct (csv.sameWidth (head :: rows)).
  2:{ intros [= <- _]. split; [intros w []|constructor]. }
  cbn [List.length tl].
  destruct (S (List.length rows) <? 2)%nat.
  { intros [= <- _]. split; [intros w []|constructor]. }
  destruct (parseRows 0 rows []) as [log' r'] eqn:E. cbn [fst snd].
  intros [= <- _]. split.
  - intros w Hw. exact (Hrows _ _ _ _ _ E w Hw).
  - exact (Hsorted _ _ _ _ _ E).
Qed.

Lemma warnings_justified_witness :
  StronglySorted lt
    (map rowOf [RowError 3 (InvalidCANID strconv.ErrSyntax);
                RowError 4 (InvalidDataByte 1 "0")]).
Proof.
  exact (proj2 (warnings_justified sampleHeader
                  [sampleRow "5F4" "false" "2"; sampleRow "5G4" "false" "2";
                   ["18970900"; "5F4"; "false"; "Rx"; "0"; "1";
                    "0"; "09"; "1C"; "46"; "00"; "00"; "00"; "01"]]
                  _ _ eq_refl)).
Defined.

(** X12. A file without a data row (no record at all, or the header alone) is
    an error, "CSV file is empty or has no data rows".  A file with data rows
    of which every one has fewer than 12 columns is not, when the reader
    accepts it (all its records have the same number of fields): the load
    succeeds with an empty trace and one "insufficient columns" warning per
    row, numbered from 2.  When the reader does not accept it, the load ends
    with "failed to read CSV". *)
Theorem no_usable_rows :
  (forall records, (List.length records < 2)%nat ->
     parseCSV (Records records) = ([], Returns ([], Some NoDataRows)))
  /\ (forall head rows,
        rows <> [] ->
        Forall (fun record => (List.length record < 12)%nat) rows ->
        parseCSV (Records (head :: rows)) =
          if csv.sameWidth (head :: rows)
          then (map InsufficientColumns (seq 2 (List.length rows)), Returns ([], None))
          else ([], Returns ([], Some ReadFailed))).
Proof.
  split.
  - intros records H. rewrite parseCSV_records.
    replace (csv.sameWidth records) with true.
    2:{ destruct records as [|r [|r' records]]; cbn in *; try reflexivity; lia. }
    replace (List.length records <? 2)%nat with true
      by (symmetry; apply Nat.ltb_lt; exact H).
    reflexivity.
  - intros head rows Hne Hshort.
    assert (Hrows : forall i frames,
               parseRows i rows frames =
                 (map InsufficientColumns (seq (i + 2) (List.length rows)),
                  Returns frames)).
    { clear Hne. induction Hshort as [|record rows Hr _ IH]; intros i frames.
      - reflexivity.
      - rewrite parseRows_short by exact Hr. rewrite IH. cbn. reflexivity. }
    rewrite parseCSV_records. destruct (csv.sameWidth (head :: rows)); [|reflexivity].
    cbn [List.length tl].
    destruct rows as [|record rows]; [congruence|].
    cbn [List.length Nat.ltb Nat.leb]. rewrite Hrows. reflexivity.
Qed.

Lemma no_usable_rows_witness :
  parseCSV (Records [sampleHeader]) = ([], Returns ([], Some NoDataRows))
  /\ parseCSV (Records [firstn 8 sampleHeader;
                        firstn 8 (sampleRow "5F4" "false" "2");
                        firstn 8 (sampleRow "5F5" "false" "2")]) =
     ([InsufficientColumns 2; InsufficientColumns 3], Returns ([], None)).
Proof.
  split.
  - exact (proj1 no_usable_rows [sampleHeader] ltac:(cbn; lia)).
  - exact (proj2 no_usable_rows (firstn 8 sampleHeader)
             [firstn 8 (sampleRow "5F4" "false" "2");
              firstn 8 (sampleRow "5F5" "false" "2")]
             ltac:(discriminate)
             ltac:(repeat constructor; cbn; lia)).
Defined.

(** ** Further facts on the scheduler *)

Lemma copy_into_8 (src : list Z) :
  List.length (copy (repeat 0 8%nat) src) = 8%nat
  /\ forall k, (k < 8)%nat -> nth k (copy (repeat 0 8%nat) src) 0 = nth k src 0.
Proof.
  unfold copy. rewrite repeat_length. split.
  - rewrite length_app, length_firstn, length_skipn, repeat_length. lia.
  - intros k Hk.
    destruct (Nat.lt_ge_cases k (List.length src)) as [H|H].
    + rewrite app_nth1 by (rewrite length_firstn; lia).
      rewrite nth_firstn. replace (k <? 8)%nat with true
        by (symmetry; apply Nat.ltb_lt; exact Hk).
      reflexivity.
    + rewrite app_nth2 by (rewrite length_firstn; lia).
      rewrite nth_skipn, nth_repeat, nth_overflow by exact H. reflexivity.
Qed.

Section SchedulerExtras.

Context {B : Type} {T : can.Bus B}.

(** X13. The frame handed to the transport carries the identifier and the
    length of the trace frame unchanged, the flag [can.EFF] exactly when the
    frame is extended, and always 8 data bytes: the first 8 bytes of the
    payload, padded with zeros when the payload is shorter and cut when it is
    longer. *)
Theorem encode_frame (frame : CANFrame) :
  can.ID (encode frame) = ID frame
  /\ can.Length (encode frame) = Length frame
  /\ can.Flags (encode frame) = (if Extended frame then can.EFF else 0)
  /\ List.length (can.Data (encode frame)) = 8%nat
  /\ (forall k, (k < 8)%nat ->
        nth k (can.Data (encode frame)) 0 = nth k (Data frame) 0)
  /\ (forall k, (List.length (Data frame) <= k)%nat ->
        nth k (can.Data (encode frame)) 0 = 0).
Proof.
  unfold encode. destruct (copy_into_8 (Data frame)) as [Hl Hn].
  destruct (Extended frame); cbn [can.ID can.Length can.Flags can.Data];
    repeat split; auto; intros k Hk;
    (destruct (Nat.lt_ge_cases k 8) as [H8|H8];
     [rewrite Hn by exact H8; apply nth_overflow; exact Hk
     |apply nth_overflow; rewrite Hl; exact H8]).
Qed.

(** X14. From the row to the wire.  For a row the parser accepts, the frame
    handed to the transport has the declared length, its data byte [k] is
    what column [D(k+1)] decodes to for [k < min(length, 8)], and its other
    data bytes are zero: a declared length above 8 reaches the transport
    as it is, with 8 bytes of data. *)
Theorem row_to_wire (record : list string) (frame : CANFrame) :
  parseCANFrame record = Returns (frame, None) ->
  can.Length (encode frame) = Length frame
  /\ (forall k, (k < 8)%nat -> Z.of_nat k < Length frame ->
        exists col, nth_error record (6 + k) = Some col /\
                    oneByte col = Some (nth k (can.Data (encode frame)) 0))
  /\ (forall k, Length frame <= Z.of_nat k ->
        nth k (can.Data (encode frame)) 0 = 0).
Proof.
  intros H. destruct (parseCANFrame_accepts _ _ H) as (ts & id & ext & len & Hh).
  destruct (parseCANFrame_frame _ _ _ _ _ _ Hh H) as (_ & _ & _ & Hlen & Hdl & Hcol & _).
  destruct (copy_into_8 (Data frame)) as [Hl Hn].
  assert (Hd : can.Data (encode frame) = copy (repeat 0 8%nat) (Data frame))
    by (unfold encode; destruct (Extended frame); reflexivity).
  split; [unfold encode; destruct (Extended frame); reflexivity|]. split.
  - intros k Hk Hkl. rewrite Hd, Hn by exact Hk. apply Hcol; lia.
  - intros k Hk. rewrite Hd.
    destruct (Nat.lt_ge_cases k 8) as [H8|H8].
    + rewrite Hn by exact H8. apply nth_overflow. lia.
    + apply nth_overflow. rewrite Hl. exact H8.
Qed.

(** What the events of one pass are. *)
Lemma sendFrom_events (frames : list CANFrame) (first : Z) :
  forall rest i bus evs bus' r,
    sendFrom frames first i rest bus = (evs, bus', r) ->
    (forall k f, nth_error rest k = Some f -> nth_error frames (i + k) = Some f) ->
    forall e, In e evs ->
      match e with
      | Sleep d =>
          exists j f, nth_error frames j = Some f /\ (0 < j)%nat /\
                      d = delay frames j f /\ 0 < d
      | Sent cf _ => exists j f, nth_error frames j = Some f /\ cf = encode f
      | Progress n total id elapsed =>
          total = List.length frames /\
          exists j f, nth_error frames j = Some f /\ n = (j + 1)%nat /\
                      (j mod 100 = 0)%nat /\ id = ID f /\
                      elapsed = microseconds (wrap64 (Timestamp f - first))
      | Looping => False
      end.
Proof.
  induction rest as [|frame rest IH]; intros i bus evs bus' r H Hrest e He.
  - injection H as <- _ _. destruct He.
  - rewrite sendFrom_cons in H. cbv zeta in H.
    remember (if (i mod 100 =? 0)%nat
              then [Progress (i + 1) (List.length frames) (ID frame)
                      (microseconds (wrap64 (Timestamp frame - first)))]
              else []) as printed eqn:Hprinted.
    assert (Hi : nth_error frames i = Some frame).
    { rewrite <- (Nat.add_0_r i). apply Hrest. reflexivity. }
    assert (Hslept : In e (if delay frames i frame >? 0
                           then [Sleep (delay frames i frame)] else []) ->
                     match e with
                     | Sleep d =>
                         exists j f, nth_error frames j = Some f /\ (0 < j)%nat /\
                                     d = delay frames j f /\ 0 < d
                     | _ => False
                     end).
    { destruct (delay frames i frame >? 0) eqn:Ed; [|intros []].
      intros [<-|[]]. exists i, frame. to_prop. repeat split; auto.
      destruct i; [discriminate Ed|lia]. }
    assert (Hsent : forall a, e = Sent (encode frame) a ->
                              match e with
                              | Sent cf _ =>
                                  exists j f, nth_error frames j = Some f /\ cf = encode f
                              | _ => False
                              end).
    { intros a ->. exists i, frame. auto. }
    destruct (can.Publish bus (encode frame)) as [bus1 [cause|]].
    + injection H as <- _ _. apply in_app_or in He. destruct He as [He|[He|[]]].
      * specialize (Hslept He). destruct e; try contradiction. exact Hslept.
      * specialize (Hsent _ (eq_sym He)). destruct e; try contradiction. exact Hsent.
    + destruct (sendFrom frames first (S i) rest bus1) as [[evs1 bus2] r1] eqn:E1.
      injection H as <- _ _.
      apply in_app_or in He. destruct He as [He|[He|He]].
      * specialize (Hslept He). destruct e; try contradiction. exact Hslept.
      * specialize (Hsent _ (eq_sym He)). destruct e; try contradiction. exact Hsent.
      * apply in_app_or in He. destruct He as [He|He].
        -- subst printed. revert He.
           destruct (i mod 100 =? 0)%nat eqn:Em; [|intros []].
           intros [<-|[]]. split; [reflexivity|].
           exists i, frame. apply Nat.eqb_eq in Em. repeat split; auto.
        -- apply (IH _ _ _ _ _ E1); [|exact He].
           intros k f Hk. replace (S i + k)%nat with (i + S k)%nat by lia.
           apply Hrest. exact Hk.
Qed.

(** An event of a run is the line between two passes or an event of a pass. *)
Lemma passes_events (frames : list CANFrame) (first : Z) (loop : bool) :
  forall fuel bus evs bus' st,
    passes fuel frames first loop bus = (evs, bus', st) ->
    forall e, In e evs ->
      e = Looping \/
      exists bus0 evs0 bus1 r,
        sendFrom frames first 0 frames bus0 = (evs0, bus1, r) /\ In e evs0.
Proof.
  induction fuel as [|fuel IH]; intros bus evs bus' st H e He.
  - injection H as <- _ _. destruct He.
  - rewrite passes_S in H.
    destruct (sendFrom frames first 0 frames bus) as [[evs1 bus1] r1] eqn:E1.
    destruct r1 as [err|].
    + injection H as <- _ _. right. eauto 6.
    + destruct (negb loop).
      * injection H as <- _ _. right. eauto 6.
      * destruct (passes fuel frames first loop bus1) as [[evs2 bus2] st2] eqn:E2.
        injection H as <- _ _. apply in_app_or in He.
        destruct He as [He|[<-|He]]; [right; eauto 6|left; reflexivity|].
        exact (IH _ _ _ _ E2 e He).
Qed.

(** X15. The scheduler never calls [time.Sleep] with a zero or negative
    duration: every sleep of a run is the [delay] of a frame at an index
    above 0, and is positive. *)
Theorem sleeps_positive (frames : list CANFrame) (loop : bool) (fuel : nat)
  (bus bus' : B) (evs : list event) (st : status) (d : Z) :
  replayFrames fuel bus frames loop = (evs, bus', st) ->
  In (Sleep d) evs ->
  0 < d /\ exists i frame,
             nth_error frames i = Some frame /\ (0 < i)%nat /\
             d = delay frames i frame.
Proof.
  intros H Hd. unfold replayFrames in H.
  destruct (List.length frames =? 0)%nat; [injection H as <- _ _; destruct Hd|].
  destruct (passes_events _ _ _ _ _ _ _ _ H _ Hd) as [Hl|(b0 & e0 & b1 & r & Hs & Hin)];
    [discriminate Hl|].
  pose proof (sendFrom_events _ _ _ _ _ _ _ _ Hs (fun k f Hk => Hk) _ Hin) as He.
  cbn in He. destruct He as (j & f & Hj & Hpos & -> & Hd0).
  split; [exact Hd0|]. exists j, f. auto.
Qed.

(** X16. The progress line is printed only for the frames at index 0, 100,
    200, ... of the trace: it gives the index plus one, the number of frames,
    the identifier of the frame and the time from the first frame's
    timestamp to the frame's own. *)
Theorem progress_lines (frames : list CANFrame) (loop : bool) (fuel : nat)
  (bus bus' : B) (evs : list event) (st : status) (n total : nat) (id elapsed : Z) :
  replayFrames fuel bus frames loop = (evs, bus', st) ->
  In (Progress n total id elapsed) evs ->
  total = List.length frames /\
  exists i frame,
    nth_error frames i = Some frame /\ n = (i + 1)%nat /\ (i mod 100 = 0)%nat /\
    id = ID frame /\
    elapsed = microseconds
                (wrap64 (Timestamp frame - Timestamp (nth 0 frames zeroFrame))).
Proof.
  intros H Hp. unfold replayFrames in H.
  destruct (List.length frames =? 0)%nat; [injection H as <- _ _; destruct Hp|].
  destruct (passes_events _ _ _ _ _ _ _ _ H _ Hp) as [Hl|(b0 & e0 & b1 & r & Hs & Hin)];
    [discriminate Hl|].
  exact (sendFrom_events _ _ _ _ _ _ _ _ Hs (fun k f Hk => Hk) _ Hin).
Qed.

End SchedulerExtras.

Section AcceptingTransport.

Context {B : Type} {T : can.Bus B}.

(** The transport accepts every frame, whatever its state. *)
Hypothesis accepts : forall (bus : B) (f : can.Frame), snd (can.Publish bus f) = None.

Lemma sendFrom_accepted (frames : list CANFrame) (first : Z) :
  forall rest i bus, exists evs bus',
    sendFrom frames first i rest bus = (evs, bus', None).
Proof.
  induction rest as [|frame rest IH]; intros i bus.
  - eexists. eexists. reflexivity.
  - rewrite sendFrom_cons. cbv zeta.
    pose proof (accepts bus (encode frame)) as Ha.
    destruct (can.Publish bus (encode frame)) as [bus1 a]. cbn in Ha. subst a.
    destruct (IH (S i) bus1) as (evs & bus' & ->). eexists. eexists. reflexivity.
Qed.

Lemma planned_handed (frames : list CANFrame) :
  forall rest i, map handed (planned frames i rest) = map encode rest.
Proof.
  induction rest as [|f rest IH]; intros i; cbn; [|rewrite IH]; reflexivity.
Qed.

(** X17. On a transport that accepts every frame, replay of a non-empty trace
    without the loop flag returns success after handing over every frame of
    the trace once, in order; with the loop flag it never returns: after any
    number [n] of passes it is still running and has made [n] times as many
    transmissions as the trace has frames. *)
Theorem replay_on_accepting_transport (frames : list CANFrame) (fuel : nat) (bus : B) :
  (0 < List.length frames)%nat ->
  (exists evs bus',
      replayFrames (S fuel) bus frames false = (evs, bus', Returned None)
      /\ map handed (transmissions 0 evs) = map encode frames)
  /\ (exists evs bus',
        replayFrames fuel bus frames true = (evs, bus', Running)
        /\ List.length (transmissions 0 evs) = (fuel * List.length frames)%nat).
Proof.
  intros Hne. unfold replayFrames.
  replace (List.length frames =? 0)%nat with false
    by (symmetry; apply Nat.eqb_neq; lia).
  set (first := Timestamp (nth 0 frames zeroFrame)). split.
  - rewrite passes_S.
    destruct (sendFrom_accepted frames first frames 0 bus) as (evs & bus' & E).
    rewrite E. cbn [negb]. exists evs, bus'. split; [reflexivity|].
    destruct (sendFrom_shape _ _ _ _ _ _ _ _ E) as [_ ->]. apply planned_handed.
  - assert (Hrun : forall fuel bus, exists evs bus',
               passes fuel frames first true bus = (evs, bus', Running)).
    { clear fuel bus. induction fuel as [|fuel IH]; intros bus.
      - eexists. eexists. reflexivity.
      - rewrite passes_S.
        destruct (sendFrom_accepted frames first frames 0 bus) as (evs & bus' & ->).
        cbn [negb]. destruct (IH bus') as (evs2 & bus2 & ->).
        eexists. eexists. reflexivity. }
    destruct (Hrun fuel bus) as (evs & bus' & E). exists evs, bus'.
    split; [exact E|]. apply passes_shape in E. destruct E as (_ & -> & _).
    apply cycles_length.
Qed.

End AcceptingTransport.

Lemma replay_on_accepting_transport_witness :
  (exists evs bus',
      replayFrames 1 tt sampleTrace false = (evs, bus', Returned None)
      /\ map handed (transmissions 0 evs) = map encode sampleTrace)
  /\ (exists evs bus',
        replayFrames 4 tt sampleTrace true = (evs, bus', Running)
        /\ List.length (transmissions 0 evs) = 12%nat).
Proof.
  destruct (@replay_on_accepting_transport unit alwaysAccept
              (fun bus f => eq_refl) sampleTrace 0%nat tt ltac:(cbn; lia)) as [H1 _].
  destruct (@replay_on_accepting_transport unit alwaysAccept
              (fun bus f => eq_refl) sampleTrace 4%nat tt ltac:(cbn; lia)) as [_ H2].
  exact (conj H1 H2).
Defined.

Lemma row_to_wire_witness :
  let frame := mkCANFrame 18970798 0x5F4 false [0; 9; 0x1C; 0x46; 0; 0; 0; 1; 0] 9 in
  can.Length (@encode unit alwaysAccept frame) = 9
  /\ exists col,
       nth_error (sampleRow "5F4" "false" "9") (6 + 2) = Some col /\
       oneByte col = Some (nth 2 (can.Data (@encode unit alwaysAccept frame)) 0).
Proof.
  intros frame.
  destruct (@row_to_wire unit alwaysAccept (sampleRow "5F4" "false" "9") frame eq_refl)
    as (H1 & H2 & _).
  split; [exact H1|]. apply H2; [lia|reflexivity].
Defined.

Lemma sleeps_positive_witness :
  0 < 250 * Microsecond
  /\ exists i frame,
       nth_error sampleTrace i = Some frame /\ (0 < i)%nat /\
       250 * Microsecond = delay sampleTrace i frame.
Proof.
  exact (@sleeps_positive nat failAfter sampleTrace false 1%nat 5%nat
           (snd (fst (replayFrames 1 5%nat sampleTrace false)))
           (fst (fst (replayFrames 1 5%nat sampleTrace false)))
           (snd (replayFrames 1 5%nat sampleTrace false))
           (250 * Microsecond) eq_refl
           ltac:(vm_compute; tauto)).
Defined.

Lemma progress_lines_witness :
  3%nat = List.length sampleTrace
  /\ exists i frame,
       nth_error sampleTrace i = Some frame /\ 1%nat = (i + 1)%nat /\
       (i mod 100 = 0)%nat /\ 0x5F4 = ID frame /\
       0 = microseconds
             (wrap64 (Timestamp frame - Timestamp (nth 0 sampleTrace zeroFrame))).
Proof.
  exact (@progress_lines nat failAfter sampleTrace false 1%nat 5%nat
           (snd (fst (replayFrames 1 5%nat sampleTrace false)))
           (fst (fst (replayFrames 1 5%nat sampleTrace false)))
           (snd (replayFrames 1 5%nat sampleTrace false))
           1%nat 3%nat 0x5F4 0 eq_refl
           ltac:(vm_compute; tauto)).
Defined.

(** ** Facts on the program *)

Lemma replayed_app (a b : list output) : replayed (a ++ b) = replayed a ++ replayed b.
Proof.
  induction a as [|x a IH]; [reflexivity|]. destruct x; cbn; rewrite IH; reflexivity.
Qed.

Lemma replayed_events (evs : list event) : replayed (map Replayed evs) = evs.
Proof. induction evs as [|e evs IH]; cbn; [|rewrite IH]; reflexivity. Qed.

Lemma replayed_warnings (log : list warning) : replayed (map Warned log) = [].
Proof. induction log as [|w log IH]; cbn; auto. Qed.

Lemma no_disconnect_in_warnings (log : list warning) :
  ~ In Disconnected (map Warned log).
Proof. intros H. apply in_map_iff in H. destruct H as (w & H & _). discriminate H. Qed.

Lemma no_disconnect_in_events (evs : list event) :
  ~ In Disconnected (map Replayed evs).
Proof. intros H. apply in_map_iff in H. destruct H as (w & H & _). discriminate H. Qed.

Ltac find_disconnect H :=
  repeat match type of H with
    | In _ (_ ++ _) => apply in_app_or in H; destruct H as [H|H]
    | In _ (_ :: _) => destruct H as [H|H]; [try discriminate H|]
    | In _ [] => destruct H
    | In _ (map Warned _) => destruct (no_disconnect_in_warnings _ H)
    | In _ (map Replayed _) => destruct (no_disconnect_in_events _ H)
    end.

Section ProgramFacts.

Context {B : Type} {T : can.Bus B}.

Variable files : string -> csvSource.
Variable NewBusForInterfaceWithName : string -> B + string.

Lemma opening_replayed (fl : flags) (log : list warning) (frames : list CANFrame) :
  replayed (opening fl log frames) = [] /\ ~ In Disconnected (opening fl log frames).
Proof.
  unfold opening. destruct (0 <? List.length frames)%nat; cbv zeta; split;
    rewrite ?replayed_app; cbn; rewrite ?replayed_warnings; try reflexivity;
    rewrite ?in_app_iff; cbn;
    intros H; repeat (destruct H as [H|H]); try discriminate H; try contradiction;
    exact (no_disconnect_in_warnings _ H).
Qed.

(** [main] after [flag.Parse] has returned, branch by branch. *)
Lemma main_cases (fuel : nat) (fl : flags) :
  main fuel (Parsed fl) files NewBusForInterfaceWithName =
    if String.eqb (csvFile fl) "" then ([Fatal NoCSVFlag], Exit 1)
    else
      match parseCSV (files (csvFile fl)) with
      | (log, Panics e) => (ParsingFile (csvFile fl) :: map Warned log, Crash e)
      | (log, Returns (frames, Some err)) =>
          ((ParsingFile (csvFile fl) :: map Warned log) ++ [Fatal (ParseFailed err)],
           Exit 1)
      | (log, Returns (frames, None)) =>
          match NewBusForInterfaceWithName (canInterface fl) with
          | inr cause =>
              (opening fl log frames ++ [Fatal (OpenInterfaceFailed cause)], Exit 1)
          | inl bus =>
              match replayFrames fuel bus frames (loopFlag fl) with
              | (evs, _, Running) =>
                  ((opening fl log frames ++ [Starting]) ++ map Replayed evs, Unfinished)
              | (evs, _, Returned (Some err)) =>
                  (((opening fl log frames ++ [Starting]) ++ map Replayed evs)
                     ++ [Fatal (ReplayFailed err)], Exit 1)
              | (evs, _, Returned None) =>
                  (((opening fl log frames ++ [Starting]) ++ map Replayed evs)
                     ++ [Completed; Disconnected], Exit 0)
              end
          end
      end.
Proof.
  unfold main, opening. destruct (String.eqb (csvFile fl) ""); [reflexivity|].
  destruct (parseCSV (files (csvFile fl))) as [log [[frames [err|]]|e]];
    [reflexivity| |reflexivity].
  cbv zeta. destruct (0 <? List.length frames)%nat;
    (destruct (NewBusForInterfaceWithName (canInterface fl)) as [bus|cause];
     [|reflexivity]);
    destruct (replayFrames fuel bus frames (loopFlag fl)) as [[evs bus'] [[err|]|]];
    reflexivity.
Qed.

(** X18. The process ends with status 0 in two ways only.  Either
    [flag.Parse] ended it for [-h] or [-help], after the usage and nothing
    else.  Or the [-csv] flag is given, the file loads without error into a
    trace of at least one frame, the interface opens, the loop flag is off,
    and every frame of the trace has been handed to the transport and
    accepted, once and in order; the last things the process does are then
    the final message and the deferred disconnect. *)
Theorem main_succeeds_only_after_a_full_pass (fuel : nat) (cmd : commandLine)
  (out : list output) :
  main fuel cmd files NewBusForInterfaceWithName = (out, Exit 0) ->
  (cmd = HelpRequested /\ out = [Usage])
  \/ exists fl,
       cmd = Parsed fl /\ csvFile fl <> "" /\ loopFlag fl = false
       /\ exists log frames bus out',
            parseCSV (files (csvFile fl)) = (log, Returns (frames, None))
            /\ frames <> []
            /\ NewBusForInterfaceWithName (canInterface fl) = inl bus
            /\ transmissions 0 (replayed out) = planned frames 0 frames
            /\ out = out' ++ [Completed; Disconnected].
Proof.
  destruct cmd as [| |fl].
  { intros [= <-]. left. auto. }
  { discriminate. }
  rewrite main_cases. intros H. right. exists fl. split; [reflexivity|]. revert H.
  destruct (String.eqb (csvFile fl) "") eqn:Ecsv; [discriminate|].
  apply String.eqb_neq in Ecsv.
  destruct (parseCSV (files (csvFile fl))) as [log [[frames [err|]]|e]];
    try discriminate.
  destruct (NewBusForInterfaceWithName (canInterface fl)) as [bus|cause];
    [|discriminate].
  destruct (replayFrames fuel bus frames (loopFlag fl)) as [[evs bus'] [[err|]|]] eqn:Er;
    try discriminate.
  intros [= <-]. split; [exact Ecsv|].
  unfold replayFrames in Er.
  destruct (List.length frames =? 0)%nat eqn:El; [discriminate|].
  apply passes_shape in Er. destruct Er as (Hloop & _ & Ht).
  split; [exact Hloop|].
  exists log, frames, bus, ((opening fl log frames ++ [Starting]) ++ map Replayed evs).
  repeat split; auto.
  - intros ->. discriminate El.
  - rewrite !replayed_app, replayed_events, (proj1 (opening_replayed _ _ _)). cbn.
    rewrite app_nil_r. exact Ht.
Qed.

(** X19. The deferred [bus.Disconnect()] runs exactly when the process ends
    with status 0 after a replay, that is, with status 0 and not through the
    [-h] exit of [flag.Parse].  On every other end the bus is not
    disconnected: not on the exits of [flag.Parse], and not on a fatal end,
    also after the interface has been opened (a refused frame, an empty
    trace), where the process exits through [log.Fatalf]. *)
Theorem disconnect_only_on_success (fuel : nat) (cmd : commandLine)
  (out : list output) (e : ending) :
  main fuel cmd files NewBusForInterfaceWithName = (out, e) ->
  (In Disconnected out <-> e = Exit 0 /\ cmd <> HelpRequested).
Proof.
  destruct cmd as [| |fl].
  { intros [= <- <-]. split; [intros H; find_disconnect H|intros [_ H]; congruence]. }
  { intros [= <- <-]. split; [intros H; find_disconnect H|intros [H _]; discriminate H]. }
  rewrite main_cases.
  assert (Hno : forall out0 e0, e0 <> Exit 0 -> ~ In Disconnected out0 ->
                  (out0, e0) = (out, e) ->
                  (In Disconnected out <-> e = Exit 0 /\ Parsed fl <> HelpRequested)).
  { intros out0 e0 He Hout [= <- <-]. split; [intros H; destruct (Hout H)|].
    intros [H _]. destruct (He H). }
  destruct (String.eqb (csvFile fl) "").
  { apply Hno; [discriminate|]. intros H. find_disconnect H. }
  destruct (parseCSV (files (csvFile fl))) as [log [[frames [err|]]|e']].
  - apply Hno; [discriminate|]. intros H. find_disconnect H.
  - pose proof (proj2 (opening_replayed fl log frames)) as Hopen.
    destruct (NewBusForInterfaceWithName (canInterface fl)) as [bus|cause].
    + destruct (replayFrames fuel bus frames (loopFlag fl)) as [[evs bus'] [[err|]|]].
      * apply Hno; [discriminate|]. intros H. find_disconnect H. destruct (Hopen H).
      * intros [= <- <-]. split; [intros _; split; [reflexivity|discriminate]|].
        intros _. apply in_or_app. right. cbn. auto.
      * apply Hno; [discriminate|]. intros H. find_disconnect H. destruct (Hopen H).
    + apply Hno; [discriminate|]. intros H. find_disconnect H. destruct (Hopen H).
  - apply Hno; [discriminate|]. intros H. find_disconnect H.
Qed.

(** X20. Nothing is sent before the whole file has been loaded: if the output
    of the process contains an event of the replay, then [flag.Parse]
    returned, the load returned a trace without error or panic, the trace is
    not empty and the interface was opened.  When the load returns an empty
    trace (every data row was skipped), the interface is opened all the same
    and the process then ends with status 1 on "no frames to replay",
    without any event of the replay. *)
Theorem nothing_sent_before_load (fuel : nat) (cmd : commandLine)
  (out : list output) (e : ending) :
  main fuel cmd files NewBusForInterfaceWithName = (out, e) ->
  (replayed out <> [] ->
   exists fl log frames bus,
     cmd = Parsed fl
     /\ parseCSV (files (csvFile fl)) = (log, Returns (frames, None))
     /\ frames <> []
     /\ NewBusForInterfaceWithName (canInterface fl) = inl bus)
  /\ (forall fl log bus,
        cmd = Parsed fl ->
        csvFile fl <> "" ->
        parseCSV (files (csvFile fl)) = (log, Returns ([], None)) ->
        NewBusForInterfaceWithName (canInterface fl) = inl bus ->
        e = Exit 1 /\ replayed out = [] /\
        exists out', out = out' ++ [OpeningInterface (canInterface fl); Starting;
                                    Fatal (ReplayFailed NoFrames)]).
Proof.
  intros H. split.
  - destruct cmd as [| |fl];
      [injection H as <- _; cbn; congruence|injection H as <- _; cbn; congruence|].
    rewrite main_cases in H. intros Hne. exists fl. revert Hne.
    destruct (String.eqb (csvFile fl) ""); [injection H as <- _; cbn; congruence|].
    destruct (parseCSV (files (csvFile fl))) as [log [[frames [err|]]|e']].
    + assert (Hout : out = (ParsingFile (csvFile fl) :: map Warned log)
                             ++ [Fatal (ParseFailed err)]) by congruence.
      rewrite Hout, replayed_app. cbn. rewrite replayed_warnings. cbn. congruence.
    + destruct (NewBusForInterfaceWithName (canInterface fl)) as [bus|cause].
      * intros Hne. exists log, frames, bus. repeat split; auto.
        intros ->.
        assert (Hout : out = ((opening fl log [] ++ [Starting]) ++ map Replayed [])
                               ++ [Fatal (ReplayFailed NoFrames)])
          by (cbn in H; cbn; congruence).
        apply Hne. rewrite Hout, !replayed_app, (proj1 (opening_replayed _ _ _)).
        reflexivity.
      * assert (Hout : out = opening fl log frames ++ [Fatal (OpenInterfaceFailed cause)])
          by congruence.
        rewrite Hout, replayed_app, (proj1 (opening_replayed _ _ _)). cbn. congruence.
    + assert (Hout : out = ParsingFile (csvFile fl) :: map Warned log) by congruence.
      rewrite Hout. cbn. rewrite replayed_warnings. congruence.
  - intros fl log bus -> Hcsv Hp Hbus. rewrite main_cases in H.
    apply String.eqb_neq in Hcsv.
    rewrite Hcsv, Hp, Hbus in H.
    change (replayFrames fuel bus [] (loopFlag fl))
      with (@nil event, bus, Returned (Some NoFrames)) in H.
    cbv beta iota in H.
    assert (Hout : out = ((opening fl log [] ++ [Starting]) ++ map Replayed [])
                           ++ [Fatal (ReplayFailed NoFrames)]) by congruence.
    assert (He : e = Exit 1) by congruence.
    split; [exact He|]. split.
    + rewrite Hout, !replayed_app, (proj1 (opening_replayed _ _ _)). reflexivity.
    + exists (ParsingFile (csvFile fl) :: map Warned log ++ [Loaded 0]).
      rewrite Hout. unfold opening. cbn. rewrite <- !app_assoc. reflexivity.
Qed.

End ProgramFacts.

Lemma main_succeeds_only_after_a_full_pass_witness :
  let rows := [sampleRow "5F4" "false" "2"; sampleRow "123" "true" "1"] in
  let out := fst (main 1 (Parsed sampleFlags) (sampleFiles rows) (sampleInterface 5)) in
  transmissions 0 (replayed out) =
    planned (acceptedFrames rows) 0 (acceptedFrames rows)
  /\ exists out', out = out' ++ [Completed; Disconnected].
Proof.
  intros rows out.
  destruct (@main_succeeds_only_after_a_full_pass nat failAfter
              (sampleFiles rows) (sampleInterface 5) 1%nat (Parsed sampleFlags) out
              eq_refl)
    as [[H _]|(fl & Hfl & _ & _ & log & frames & bus & out' & Hp & _ & _ & Ht & Hout)];
    [discriminate H|].
  injection Hfl as <-. injection Hp as _ <-.
  split; [exact Ht|]. exists out'. exact Hout.
Defined.

Lemma disconnect_only_on_success_witness :
  let rows := [sampleRow "5F4" "false" "2"; sampleRow "123" "true" "1"] in
  snd (main 1 (Parsed sampleFlags) (sampleFiles rows) (sampleInterface 1)) = Exit 1
  /\ ~ In Disconnected
         (fst (main 1 (Parsed sampleFlags) (sampleFiles rows) (sampleInterface 1)))
  /\ ~ In Disconnected
         (fst (main 1 HelpRequested (sampleFiles rows) (sampleInterface 1))).
Proof.
  intros rows. split; [reflexivity|]. split; intros H.
  - apply (@disconnect_only_on_success nat failAfter
             (sampleFiles rows) (sampleInterface 1) 1%nat (Parsed sampleFlags)
             _ (Exit 1) eq_refl) in H.
    destruct H as [H _]. discriminate H.
  - apply (@disconnect_only_on_success nat failAfter
             (sampleFiles rows) (sampleInterface 1) 1%nat HelpRequested
             _ (Exit 0) eq_refl) in H.
    destruct H as [_ H]. exact (H eq_refl).
Defined.

Lemma nothing_sent_before_load_witness :
  let rows := [sampleRow "5G4" "false" "2"] in
  main 1 (Parsed sampleFlags) (sampleFiles rows) (sampleInterface 5) =
    ([ParsingFile "trace.csv"; Warned (RowError 2 (InvalidCANID strconv.ErrSyntax));
      Loaded 0; OpeningInterface "vcan0"; Starting; Fatal (ReplayFailed NoFrames)],
     Exit 1).
Proof.
  intros rows.
  destruct (proj2 (@nothing_sent_before_load nat failAfter
                     (sampleFiles rows) (sampleInterface 5) 1%nat (Parsed sampleFlags)
                     (fst (main 1 (Parsed sampleFlags) (sampleFiles rows)
                             (sampleInterface 5)))
                     (snd (main 1 (Parsed sampleFlags) (sampleFiles rows)
                             (sampleInterface 5)))
                     eq_refl)
              sampleFlags [RowError 2 (InvalidCANID strconv.ErrSyntax)] 5%nat
              eq_refl ltac:(discriminate) eq_refl eq_refl)
    as (_ & _ & _).
  reflexivity.
Defined.

(** ** Further facts on the identifier column and on the transport *)

(** X21. The identifier column is accepted exactly when, after an optional
    [0x], it is a string of hex digits of value at most 0xFFFFFFFF; the
    identifier is that value.  The string of digits may be empty: an empty
    column, and the bare prefix, give identifier 0 without an error. *)
Theorem identifier_column (col : string) (v : Z) :
  (parseID col = (v, None) <-> identifierOf col = Some v /\ v <= 0xFFFFFFFF)
  /\ parseID "" = (0, None) /\ parseID "0x" = (0, None).
Proof.
  split; [|split; reflexivity]. split.
  - unfold parseID, identifierOf.
    rewrite <- (numeral_TrimLeft_zeros 16) by lia.
    destruct (String.eqb (strings.TrimLeft (strings.TrimPrefix col "0x") "0") "")
      eqn:E; intros H.
    + apply String.eqb_eq in E. rewrite E.
      change (strconv.ParseUint "0" 16 32) with (0, @None strconv.NumError) in H.
      injection H as <-. split; [reflexivity|lia].
    + apply ParseUint_accepts_iff in H; [|lia|lia].
      destruct H as (_ & Hn & Hv). split; [exact Hn|]. cbn in Hv. lia.
  - intros [Hn Hv]. rewrite (parseID_identifierOf col v Hn).
    replace (v <=? 4294967295) with true by (symmetry; apply Z.leb_le; lia).
    reflexivity.
Qed.

Lemma identifier_column_witness :
  identifierOf "0x000005f4" = Some 0x5F4 /\ 0x5F4 <= 0xFFFFFFFF.
Proof.
  exact (proj1 (proj1 (identifier_column "0x000005f4" 0x5F4)) eq_refl).
Defined.

Lemma transmissions_acc (evs : list event) :
  forall acc acc',
    map handed (transmissions acc evs) = map handed (transmissions acc' evs)
    /\ map answer (transmissions acc evs) = map answer (transmissions acc' evs).
Proof.
  induction evs as [|e evs IH]; intros acc acc'; [split; reflexivity|].
  destruct e; cbn; try apply IH.
  split; f_equal; apply IH.
Qed.

Section TransportCalls.

Context {B : Type} {T : can.Bus B}.

Lemma calls_app (fs1 fs2 : list can.Frame) :
  forall bus,
    calls bus (fs1 ++ fs2) =
      (fst (calls bus fs1) ++ fst (calls (snd (calls bus fs1)) fs2),
       snd (calls (snd (calls bus fs1)) fs2)).
Proof.
  induction fs1 as [|f fs1 IH]; intros bus.
  - cbn. destruct (calls bus fs2). reflexivity.
  - cbn. destruct (can.Publish bus f) as [bus1 a]. rewrite IH.
    destruct (calls bus1 fs1) as [answers bus2]. cbn.
    destruct (calls bus2 fs2). reflexivity.
Qed.

Lemma sendFrom_calls (frames : list CANFrame) (first : Z) :
  forall rest i bus evs bus' r,
    sendFrom frames first i rest bus = (evs, bus', r) ->
    calls bus (map handed (transmissions 0 evs)) =
      (map answer (transmissions 0 evs), bus').
Proof.
  induction rest as [|frame rest IH]; intros i bus evs bus' r H.
  - injection H as <- <- _. reflexivity.
  - rewrite sendFrom_cons in H. cbv zeta in H.
    remember (if (i mod 100 =? 0)%nat
              then [Progress (i + 1) (List.length frames) (ID frame)
                      (microseconds (wrap64 (Timestamp frame - first)))]
              else []) as printed eqn:Hprinted.
    assert (Ht : forall a tl,
               transmissions 0
                 ((if delay frames i frame >? 0
                   then [Sleep (delay frames i frame)] else [])
                    ++ Sent (encode frame) a :: printed ++ tl)
               = mkTransmission (wait frames i frame) (encode frame) a
                   :: transmissions 0 tl).
    { intros a tl. subst printed. unfold wait.
      destruct (delay frames i frame >? 0); destruct (i mod 100 =? 0)%nat;
        reflexivity. }
    destruct (can.Publish bus (encode frame)) as [bus1 [cause|]] eqn:Ep.
    + assert (Hevs : evs = (if delay frames i frame >? 0
                            then [Sleep (delay frames i frame)] else [])
                             ++ [Sent (encode frame) (Some cause)])
        by congruence.
      assert (Hb : bus' = bus1) by congruence.
      rewrite Hevs, Hb. destruct (delay frames i frame >? 0); cbn;
        rewrite Ep; reflexivity.
    + destruct (sendFrom frames first (S i) rest bus1) as [[evs1 bus2] r1] eqn:E1.
      assert (Hevs : evs = (if delay frames i frame >? 0
                            then [Sleep (delay frames i frame)] else [])
                             ++ Sent (encode frame) None :: printed ++ evs1)
        by congruence.
      assert (Hb : bus' = bus2) by congruence.
      rewrite Hevs, Ht, Hb. cbn. rewrite Ep, (IH _ _ _ _ _ E1). reflexivity.
Qed.

(** X22. The transmissions of a run are the calls of [bus.Publish] and
    nothing else: calling [Publish] on the frames of the run, in order, from
    the bus the run started with, gives the answers the run saw and leaves
    the bus in the state the run leaves it in. *)
Theorem transport_calls (frames : list CANFrame) (loop : bool) (fuel : nat)
  (bus bus' : B) (evs : list event) (st : status) :
  replayFrames fuel bus frames loop = (evs, bus', st) ->
  calls bus (map handed (transmissions 0 evs)) =
    (map answer (transmissions 0 evs), bus').
Proof.
  unfold replayFrames. destruct (List.length frames =? 0)%nat.
  { intros [= <- <- _]. reflexivity. }
  generalize (Timestamp (nth 0 frames zeroFrame)). intros first.
  revert bus evs bus' st. induction fuel as [|fuel IH]; intros bus evs bus' st H.
  - injection H as <- <- _. reflexivity.
  - rewrite passes_S in H.
    destruct (sendFrom frames first 0 frames bus) as [[evs1 bus1] r1] eqn:E1.
    pose proof (sendFrom_calls _ _ _ _ _ _ _ _ E1) as Hc.
    destruct r1 as [err|]; [injection H as <- <- _; exact Hc|].
    destruct (negb loop); [injection H as <- <- _; exact Hc|].
    destruct (passes fuel frames first loop bus1) as [[evs2 bus2] st2] eqn:E2.
    injection H as <- <- _. specialize (IH _ _ _ _ E2).
    rewrite transmissions_app. cbn [transmissions].
    rewrite !map_app, calls_app, Hc. cbn [fst snd].
    destruct (transmissions_acc evs2 (pending 0 evs1) 0) as [-> ->].
    rewrite IH. reflexivity.
Qed.

End TransportCalls.

Lemma transport_calls_witness :
  let run := replayFrames 2 4%nat sampleTrace true in
  calls 4%nat (map handed (transmissions 0 (fst (fst run)))) =
    ([None; None; None; None; Some refusal], 0%nat).
Proof.
  intros run.
  exact (@transport_calls nat failAfter sampleTrace true 2%nat 4%nat
           (snd (fst run)) (fst (fst run)) (snd run) eq_refl).
Defined.
